(** * Lead concierge: the conversation engine of [LeadAgent.tsx]

    A shallow embedding of the reducer, of [handleSubmit] and of
    [renderSummary] from [src/components/LeadAgent.tsx], and the properties
    of the step-sequencing engine proved over it.

    Conventions.
    - A JavaScript string is a Rocq [string] holding its UTF-8 bytes.
    - A lead profile is a JavaScript object used through property reads and
      object spread: a [gmap string JSValue].
    - [generateId] draws from the host's random source: the n-th identifier
      drawn is [uuid n], and every computation that builds a message threads
      the number of identifiers drawn so far.  A [TypeError] is [None].
    - [dispatch] applies the reducer to the state at once, in call order;
      [handleSubmit] reads the [state] of its closure, the state before the
      first dispatch.  Which draw of the identifier source a message gets
      depends on when the host runs the reducer; the properties below name
      identifiers existentially, erase them, or speak of their being
      distinct, and so do not depend on it. *)

From Stdlib Require Import Floats.PrimFloat NArith Strings.Ascii Strings.String.
From stdpp Require Import base option list strings gmap fin_maps.

(** ** Strings as the code uses them *)

Definition nl : string := String "010"%char EmptyString.

(** Truthiness of a string: every string but the empty one. *)
Definition nonEmpty (s : string) : bool :=
  match s with
  | EmptyString => false
  | String _ _ => true
  end.

Definition code (a : ascii) : N := N_of_ascii a.

(** WhiteSpace and LineTerminator code points of ECMAScript, by the length
    of their UTF-8 encoding: TAB LF VT FF CR SP; U+00A0; U+1680,
    U+2000..U+200A, U+2028, U+2029, U+202F, U+205F, U+3000, U+FEFF. *)
Definition isWs1 (a : ascii) : bool :=
  let n := code a in
  ((9 <=? n) && (n <=? 13))%N || (n =? 32)%N.

Definition isWs2 (a b : ascii) : bool :=
  ((code a =? 194) && (code b =? 160))%N.

Definition isWs3 (a b c : ascii) : bool :=
  let x := code a in
  let y := code b in
  let z := code c in
  ((x =? 225) && (y =? 154) && (z =? 128))%N
  || ((x =? 226) && (y =? 128)
      && (((128 <=? z) && (z <=? 138)) || (z =? 168) || (z =? 169) || (z =? 175)))%N
  || ((x =? 226) && (y =? 129) && (z =? 159))%N
  || ((x =? 227) && (y =? 128) && (z =? 128))%N
  || ((x =? 239) && (y =? 187) && (z =? 191))%N.

Fixpoint trimStart (s : string) : string :=
  match s with
  | EmptyString => EmptyString
  | String a r1 =>
      if isWs1 a then trimStart r1
      else
        match r1 with
        | EmptyString => s
        | String b r2 =>
            if isWs2 a b then trimStart r2
            else
              match r2 with
              | EmptyString => s
              | String c r3 => if isWs3 a b c then trimStart r3 else s
              end
        end
  end.

(** The same scan over the reversed string: the bytes of an encoded code
    point arrive last byte first. *)
Fixpoint trimStartRev (s : string) : string :=
  match s with
  | EmptyString => EmptyString
  | String a r1 =>
      if isWs1 a then trimStartRev r1
      else
        match r1 with
        | EmptyString => s
        | String b r2 =>
            if isWs2 b a then trimStartRev r2
            else
              match r2 with
              | EmptyString => s
              | String c r3 => if isWs3 c b a then trimStartRev r3 else s
              end
        end
  end.

Definition trimEnd (s : string) : string :=
  String.rev (trimStartRev (String.rev s)).

(** [String.prototype.trim]. *)
Definition trim (s : string) : string := trimEnd (trimStart s).

(** A string made of white space only (the empty string included). *)
Inductive WhiteSpaceOnly : string -> Prop :=
| ws_empty : WhiteSpaceOnly EmptyString
| ws_one a r : isWs1 a = true -> WhiteSpaceOnly r -> WhiteSpaceOnly (String a r)
| ws_two a b r :
    isWs2 a b = true -> WhiteSpaceOnly r -> WhiteSpaceOnly (String a (String b r))
| ws_three a b c r :
    isWs3 a b c = true -> WhiteSpaceOnly r ->
    WhiteSpaceOnly (String a (String b (String c r))).

(** ** Values and lead profiles *)

Inductive JSValue : Type :=
| JUndefined
| JString (s : string)
| JNumber (x : float).

(** [Boolean(v)]. *)
Definition truthy (v : JSValue) : bool :=
  match v with
  | JUndefined => false
  | JString s => nonEmpty s
  | JNumber x => negb (PrimFloat.is_zero x || PrimFloat.is_nan x)
  end.

(** [v ?? d] looks at this. *)
Definition nullish (v : JSValue) : bool :=
  match v with
  | JUndefined => true
  | _ => false
  end.

(** [LeadProfile]: every field optional. *)
Abbreviation LeadProfile := (gmap string JSValue).

(** [lead.key]: a missing property reads as [undefined]. *)
Definition prop (lead : LeadProfile) (key : string) : JSValue :=
  default JUndefined (lead !! key).

(** [{ ...lead, ...updates }]: the later spread wins, key by key. *)
Definition spread (lead updates : LeadProfile) : LeadProfile := updates ∪ lead.

(** ** Messages, steps and the agent state *)

Inductive Sender : Type := agent | user.

Inductive MetaType : Type := question | info | summary.

Record Meta : Type := { type : option MetaType }.

Module Message.
Record t : Type := {
  id : string;
  sender : Sender;
  content : string;
  suggestions : option (list string);
  meta : option Meta;
}.
End Message.

(** The result of a step's [parse]. *)
Inductive ParseResult : Type :=
| ParseSuccess (updates : LeadProfile) (followUp : option string)
| ParseFailure (retryMessage : string).

Module LeadStep.
Record t : Type := {
  id : string;
  question : string;
  helper : option string;
  suggestions : option (list string);
  parse : string -> LeadProfile -> ParseResult;
}.
End LeadStep.

Inductive Status : Type := collecting | complete.

Record AgentState : Type := {
  stepIndex : nat;
  lead : LeadProfile;
  messages : list Message.t;
  status : Status;
}.

Inductive AgentAction : Type :=
| INIT
| PUSH_MESSAGE (payload : Message.t)
| BULK_MESSAGES (payload : list Message.t)
| ADVANCE (leadUpdates : LeadProfile) (followUp : option string)
| RETRY (message : string)
| COMPLETE (followUp : option string)
| RESET.

(** Truthiness of an optional string ([action.followUp], [step.helper]). *)
Definition present (o : option string) : bool :=
  match o with
  | Some s => nonEmpty s
  | None => false
  end.

(** [typeof value === "string" ? value : input]. *)
Definition submitted (value : option string) (input : string) : string :=
  match value with
  | Some v => v
  | None => input
  end.

(** ** Computations that draw identifiers and may throw *)

Definition Eff (A : Type) : Type := nat -> option (A * nat).

Definition ret {A} (a : A) : Eff A := fun n => Some (a, n).

Definition bind {A B} (m : Eff A) (k : A -> Eff B) : Eff B :=
  fun n =>
    match m n with
    | Some (a, n') => k a n'
    | None => None
    end.

Definition throw {A} : Eff A := fun _ => None.

Notation "'let*' x ':=' m 'in' k" := (bind m (fun x => k))
  (at level 10, x name, m at level 100, k at level 200).

Definition initialAgentMessage : Message.t :=
  {| Message.id := "intro";
     Message.sender := agent;
     Message.content :=
       "Hey there — I'm your lead concierge. I'll capture the essentials in a few quick questions.";
     Message.suggestions := Some ["Sounds good!"; "Let's do it"; "Can we skip ahead?"];
     Message.meta := Some {| type := Some info |} |}.

Definition ackText : string :=
  "Appreciate the extra context. Noted for the handoff.".

Definition closingFollowUp : string :=
  "That's everything I need. Here's a quick snapshot of the opportunity.".

Definition closingPrompt : string :=
  "Need anything else captured? Just type it in.".

(** What an observer of the session sees: identifiers are the host's. *)
Definition anonymous (m : Message.t) : Message.t :=
  {| Message.id := EmptyString;
     Message.sender := Message.sender m;
     Message.content := Message.content m;
     Message.suggestions := Message.suggestions m;
     Message.meta := Message.meta m |}.

Definition observe (state : AgentState) : AgentState :=
  {| stepIndex := stepIndex state;
     lead := lead state;
     messages := map anonymous (messages state);
     status := status state |}.

(** ** Around the engine: quick replies, storage and export *)

Definition isAgent (m : Message.t) : bool :=
  match Message.sender m with
  | agent => true
  | user => false
  end.

(** [activeSuggestions]: the suggestions of the last agent message of the
    log, [[]] without such a message or without suggestions on it. *)
Definition activeSuggestions (state : AgentState) : list string :=
  match List.find isAgent (rev (messages state)) with
  | Some lastAgentMessage => default [] (Message.suggestions lastAgentMessage)
  | None => []
  end.

(** The texts of the user's messages of a log, oldest first. *)
Definition userTexts (log : list Message.t) : list string :=
  omap (fun m => match Message.sender m with
                 | user => Some (Message.content m)
                 | agent => None
                 end) log.

(** The texts a run of submissions logs for the user: the trimmed inputs
    that are not blank. *)
Definition submittedTexts (inputs : list string) : list string :=
  filter (fun t => Is_true (nonEmpty t)) (trim <$> inputs).

(** The fields [renderSummary] reads. *)
Definition summaryFields : list string :=
  ["companyName"; "industry"; "primaryGoal"; "painPoints"; "budgetRange";
   "budgetValue"; "timeline"; "contactName"; "contactEmail"].

(** The rest of a string behind the white space code point it starts with. *)
Definition wsHead (s : string) : option string :=
  match s with
  | EmptyString => None
  | String a r1 =>
      if isWs1 a then Some r1
      else
        match r1 with
        | EmptyString => None
        | String b r2 =>
            if isWs2 a b then Some r2
            else
              match r2 with
              | EmptyString => None
              | String c r3 => if isWs3 a b c then Some r3 else None
              end
        end
  end.

(** Some white space code point starts somewhere in the string. *)
Fixpoint hasWs (s : string) : bool :=
  match s with
  | EmptyString => false
  | String _ r => bool_decide (is_Some (wsHead s)) || hasWs r
  end.

(** [s.replace(/\s+/g, "-")]: every maximal run of white space becomes one
    dash; [inRun] says that the scan is inside a run. *)
Fixpoint dashWhitespace (inRun : bool) (s : string) : string :=
  match s with
  | EmptyString => EmptyString
  | String a r1 =>
      let dash := if inRun then EmptyString else "-" in
      if isWs1 a then dash +:+ dashWhitespace true r1
      else
        match r1 with
        | EmptyString => String a EmptyString
        | String b r2 =>
            if isWs2 a b then dash +:+ dashWhitespace true r2
            else
              match r2 with
              | EmptyString => String a (dashWhitespace false r1)
              | String c r3 =>
                  if isWs3 a b c then dash +:+ dashWhitespace true r3
                  else String a (dashWhitespace false r1)
              end
        end
  end.

(** What [latest.companyName] can be when [exportLatestLead] reads it.  The
    leads of the card come out of [JSON.parse], so the value need not have
    the declared type; the code tells three cases apart: a nullish value
    ([undefined], [null]), for which [??] puts ["lead"]; a string; and any
    other value (a number, a boolean, an array, an object), which has no
    [toLowerCase], so that the call throws. *)
Inductive CompanyName : Type :=
| NoName
| TextName (name : string)
| OtherName.

(** The company name of a lead profile. *)
Definition companyNameOf (lead : LeadProfile) : CompanyName :=
  match prop lead "companyName" with
  | JUndefined => NoName
  | JString name => TextName name
  | JNumber _ => OtherName
  end.

(** A value as [JSON.parse] gives it. *)
#[warnings="-register-all"]
Inductive Json : Type :=
| JsonNull
| JsonBool (b : bool)
| JsonNumber (x : float)
| JsonString (s : string)
| JsonArray (items : list Json)
| JsonObject (fields : gmap string Json).

(** The company name of a parsed object. *)
Definition jsonCompanyName (fields : gmap string Json) : CompanyName :=
  match fields !! "companyName" with
  | None | Some JsonNull => NoName
  | Some (JsonString name) => TextName name
  | Some _ => OtherName
  end.

(** The file name of [exportLatestLead], [None] where the call of
    [toLowerCase] throws; [toLowerCase] is the host's. *)
Definition downloadName (toLowerCase : string -> string) (name : CompanyName)
    : option string :=
  match name with
  | NoName => Some (dashWhitespace false (toLowerCase "lead") +:+ "-lead.json")
  | TextName text =>
      Some (dashWhitespace false (toLowerCase text) +:+ "-lead.json")
  | OtherName => None
  end.

(** What [exportLatestLead] does with the leads of the card. *)
Inductive Export : Type :=
| NothingToExport
| Download (name : string) (body : string)
| ExportThrows.

(** [exportLatestLead], for leads of any representation: [nameOf] reads the
    company name of one, [pretty] is [JSON.stringify(latest, null, 2)]. *)
Definition exportLatestLead {Lead : Type} (nameOf : Lead -> CompanyName)
    (toLowerCase : string -> string) (pretty : Lead -> string)
    (leads : list Lead) : Export :=
  match leads with
  | [] => NothingToExport
  | latest :: _ =>
      match downloadName toLowerCase (nameOf latest) with
      | Some name => Download name (pretty latest)
      | None => ExportThrows
      end
  end.

(** The part of the browser [upsertLeadInStorage] touches: local storage,
    the [leadgen:new-lead] events sent so far, the warnings logged. *)
Record Browser : Type := {
  localStorage : gmap string string;
  dispatched : list LeadProfile;
  warnings : nat;
}.

(** The host's side of storage: the clock, [JSON.parse] read at the type the
    code asserts, an array of stored leads ([None] when it throws),
    [JSON.stringify], and whether [setItem] takes a value or throws on it. *)
Record Host : Type := {
  nowISO : string;
  parseLeads : string -> option (list LeadProfile);
  stringify : list LeadProfile -> string;
  accepts : string -> bool;
}.

Definition storedPayload (H : Host) (lead : LeadProfile) (score : float)
    : LeadProfile :=
  <[ "storedAt" := JString (nowISO H) ]> (<[ "score" := JNumber score ]> lead).

(** [existingRaw ? JSON.parse(existingRaw) : []]. *)
Definition existingLeads (H : Host) (b : Browser) : option (list LeadProfile) :=
  match localStorage b !! "leadgen:leads" with
  | Some raw => if nonEmpty raw then parseLeads H raw else Some []
  | None => Some []
  end.

(** The body of the [try]: [None] when it throws. *)
Definition tryUpsert (H : Host) (payload : LeadProfile) (b : Browser)
    : option Browser :=
  match existingLeads H b with
  | None => None
  | Some existing =>
      let updated := take 25 (payload :: existing) in
      if accepts H (stringify H updated)
      then Some {| localStorage :=
                     <[ "leadgen:leads" := stringify H updated ]> (localStorage b);
                   dispatched := dispatched b ++ [payload];
                   warnings := warnings b |}
      else None
  end.

Definition upsertLeadInStorage (H : Host) (lead : LeadProfile) (score : float)
    (b : Browser) : Browser :=
  let payload := storedPayload H lead score in
  match tryUpsert H payload b with
  | Some b' => b'
  | None => {| localStorage := localStorage b;
               dispatched := dispatched b;
               warnings := S (warnings b) |}
  end.

(** [load] of [SavedLeadsCard]: the leads the card shows after it, given the
    ones it showed before. *)
Definition load (H : Host) (b : Browser) (shown : list LeadProfile)
    : list LeadProfile :=
  match localStorage b !! "leadgen:leads" with
  | Some raw =>
      if nonEmpty raw
      then match parseLeads H raw with
           | Some parsed => parsed
           | None => shown
           end
      else []
  | None => []
  end.

(** ** A two-step table to run the engine on

    [baseSteps] is not among the sources; this table stands in for it where
    a concrete run is wanted. *)

Definition sampleUuid (n : nat) : string :=
  "m" +:+ String (ascii_of_nat (48 + n)) EmptyString.

Fixpoint hasAt (s : string) : bool :=
  match s with
  | EmptyString => false
  | String a r => (code a =? 64)%N || hasAt r
  end.

Definition companyStep : LeadStep.t :=
  {| LeadStep.id := "company";
     LeadStep.question := "Which company are you with?";
     LeadStep.helper := Some "The legal or the brand name.";
     LeadStep.suggestions := None;
     LeadStep.parse := fun text _ =>
       ParseSuccess {[ "companyName" := JString text ]} (Some "Thanks, noted.") |}.

Definition emailStep : LeadStep.t :=
  {| LeadStep.id := "email";
     LeadStep.question := "Where can we reach you?";
     LeadStep.helper := Some "A work email is best.";
     LeadStep.suggestions := Some ["Skip"];
     LeadStep.parse := fun text _ =>
       if hasAt text
       then ParseSuccess {[ "contactEmail" := JString text ]} None
       else ParseFailure "That does not look like an email address." |}.

Definition sampleSteps : list LeadStep.t := [companyStep; emailStep].

Definition sampleNumber (x : float) : string := "n".

(** The opening state of the sample table, and states further on. *)
Definition sampleStart : AgentState :=
  {| stepIndex := 0;
     lead := ∅;
     messages :=
       [initialAgentMessage;
        {| Message.id := "m0";
           Message.sender := agent;
           Message.content := "Which company are you with?";
           Message.suggestions := None;
           Message.meta := Some {| type := Some question |} |}];
     status := collecting |}.

Definition atEmailStep : AgentState :=
  {| stepIndex := 1;
     lead := {[ "companyName" := JString "Acme" ]};
     messages := [];
     status := collecting |}.

Definition sampleDone : AgentState :=
  {| stepIndex := 2;
     lead := <[ "notes" := JUndefined ]> {[ "companyName" := JString "Acme" ]};
     messages := [];
     status := complete |}.

(** A space, a tab and a no-break space (U+00A0). *)
Definition blankInput : string :=
  String " " (String "009" (String "194" (String "160" EmptyString))).

(** An identifier source that never repeats: [u], [u1], [u11], ... *)
Fixpoint tally (n : nat) : string :=
  match n with
  | 0 => EmptyString
  | S k => String "1" (tally k)
  end.

Definition tallyUuid (n : nat) : string := String "u" (tally n).

(** A lead as it is stored, and a host whose storage holds that one lead. *)
Definition acmeLead : LeadProfile := {[ "companyName" := JString "Acme Robotics" ]}.

Definition acmeStored : LeadProfile :=
  <[ "storedAt" := JString "2025-01-01T00:00:00.000Z" ]>
    (<[ "score" := JNumber 80 ]> acmeLead).

Definition sampleHost : Host :=
  {| nowISO := "2025-01-01T00:00:00.000Z";
     parseLeads := fun _ => Some [acmeStored];
     stringify := fun _ => "[acme]";
     accepts := fun _ => true |}.

Definition freshBrowser : Browser :=
  {| localStorage := ∅; dispatched := []; warnings := 0 |}.

(** ** The engine *)

Section Engine.

(** The identifier source of the host: [crypto.randomUUID], or
    [Math.random] where that is missing. *)
Variable uuid : nat -> string.

(** [baseSteps], the step table of [@/lib/leadAgent]. *)
Variable baseSteps : list LeadStep.t.

(** Host conversions of a number: [String(x)] and [x.toLocaleString()]. *)
Variable numberToString : float -> string.
Variable numberToLocaleString : float -> string.

Definition generateId : Eff string := fun n => Some (uuid n, S n).

Definition agentMessage (content : string) (suggestions : option (list string))
    (meta : option Meta) : Eff Message.t :=
  let* id := generateId in
  ret {| Message.id := id;
         Message.sender := agent;
         Message.content := content;
         Message.suggestions := suggestions;
         Message.meta := meta |}.

Definition userMessage (content : string) : Eff Message.t :=
  let* id := generateId in
  ret {| Message.id := id;
         Message.sender := user;
         Message.content := content;
         Message.suggestions := None;
         Message.meta := None |}.

(** The text of a step's question: verbatim without an index or at
    index 0, with the helper on a new line otherwise. *)
Definition questionContent (step : LeadStep.t) (index : option nat) : string :=
  match index with
  | None | Some 0 => LeadStep.question step
  | Some (S _) =>
      LeadStep.question step
      +:+ (if present (LeadStep.helper step)
           then nl +:+ default EmptyString (LeadStep.helper step)
           else EmptyString)
  end.

(** [baseSteps[i]] may be [undefined]; reading [step.question] then throws. *)
Definition questionForStep (step : option LeadStep.t) (index : option nat)
    : Eff Message.t :=
  match step with
  | None => throw
  | Some step =>
      let content := questionContent step index in
      let* id := generateId in
      ret {| Message.id := id;
             Message.sender := agent;
             Message.content := content;
             Message.suggestions := LeadStep.suggestions step;
             Message.meta := Some {| type := Some question |} |}
  end.

Definition openingState : Eff AgentState :=
  let* q := questionForStep (baseSteps !! 0) None in
  ret {| stepIndex := 0;
         lead := ∅;
         messages := [initialAgentMessage; q];
         status := collecting |}.

Definition reducer (state : AgentState) (action : AgentAction) : Eff AgentState :=
  match action with
  | INIT => openingState
  | PUSH_MESSAGE payload =>
      ret {| stepIndex := stepIndex state;
             lead := lead state;
             messages := messages state ++ [payload];
             status := status state |}
  | BULK_MESSAGES payload =>
      ret {| stepIndex := stepIndex state;
             lead := lead state;
             messages := messages state ++ payload;
             status := status state |}
  | ADVANCE leadUpdates followUp =>
      let nextLead := spread (lead state) leadUpdates in
      let nextStepIndex := stepIndex state + 1 in
      let* followUpMessages :=
        (if present followUp
         then let* m := agentMessage (default EmptyString followUp) None None in
              ret [m]
         else ret []) in
      match baseSteps !! nextStepIndex with
      | None =>
          ret {| stepIndex := nextStepIndex;
                 lead := nextLead;
                 messages := messages state ++ followUpMessages;
                 status := status state |}
      | Some nextStep =>
          let* q := questionForStep (Some nextStep) (Some nextStepIndex) in
          ret {| stepIndex := nextStepIndex;
                 lead := nextLead;
                 messages := messages state ++ followUpMessages ++ [q];
                 status := status state |}
      end
  | RETRY message =>
      let* m := agentMessage message None (Some {| type := Some info |}) in
      let* q := questionForStep (baseSteps !! stepIndex state)
                  (Some (stepIndex state)) in
      ret {| stepIndex := stepIndex state;
             lead := lead state;
             messages := messages state ++ [m; q];
             status := status state |}
  | COMPLETE followUp =>
      let* followUpMessages :=
        (if present followUp
         then let* m := agentMessage (default EmptyString followUp) None None in
              ret [m]
         else ret []) in
      ret {| stepIndex := stepIndex state;
             lead := lead state;
             messages := messages state ++ followUpMessages;
             status := complete |}
  | RESET => openingState
  end.

(** The conversion a template literal applies to a value. *)
Definition toStr (v : JSValue) : string :=
  match v with
  | JUndefined => "undefined"
  | JString s => s
  | JNumber x => numberToString x
  end.

(** [v.toLocaleString()], called on truthy values only. *)
Definition toLocaleString (v : JSValue) : string :=
  match v with
  | JNumber x => numberToLocaleString x
  | other => toStr other
  end.

(** [v ?? d] inside a template literal. *)
Definition orElse (v : JSValue) (d : string) : string :=
  if nullish v then d else toStr v.

Definition summaryLines (lead : LeadProfile) : list (option string) :=
  [ if truthy (prop lead "companyName")
    then Some ("• " +:+ toStr (prop lead "companyName") +:+ " in "
               +:+ orElse (prop lead "industry") "unknown vertical")
    else None;
    if truthy (prop lead "primaryGoal")
    then Some ("• Goal: " +:+ toStr (prop lead "primaryGoal"))
    else None;
    if truthy (prop lead "painPoints")
    then Some ("• Challenge: " +:+ toStr (prop lead "painPoints"))
    else None;
    if truthy (prop lead "budgetRange")
    then Some ("• Budget comfort zone: " +:+ toStr (prop lead "budgetRange"))
    else if truthy (prop lead "budgetValue")
    then Some ("• Budget comfort zone: ~$"
               +:+ toLocaleString (prop lead "budgetValue"))
    else None;
    if truthy (prop lead "timeline")
    then Some ("• Timeline: " +:+ toStr (prop lead "timeline"))
    else None;
    if truthy (prop lead "contactName")
    then Some ("• Contact: " +:+ toStr (prop lead "contactName") +:+ " ("
               +:+ orElse (prop lead "contactEmail") "email pending" +:+ ")")
    else None ].

(** [lines.filter(Boolean)]: drops [undefined] and the empty string. *)
Definition filterBoolean (lines : list (option string)) : list string :=
  omap (fun l => match l with
                 | Some s => if nonEmpty s then Some s else None
                 | None => None
                 end) lines.

Definition renderSummary (lead : LeadProfile) : string :=
  "Quick recap:" +:+ nl +:+ String.concat nl (filterBoolean (summaryLines lead)).

(** A line of the recap, when it is shown. *)
Definition line (shown : bool) (text : string) : list string :=
  if shown then [text] else [].

(** [handleSubmit(value)]; [input] is the content of the text box, used
    when no value is passed. *)
Definition handleSubmit (value : option string) (input : string)
    (state : AgentState) : Eff AgentState :=
  let message := submitted value input in
  let trimmed := trim message in
  if negb (nonEmpty trimmed) then ret state
  else
    let* u := userMessage trimmed in
    let* s1 := reducer state (PUSH_MESSAGE u) in
    match status state with
    | complete =>
        let* ack := agentMessage ackText None (Some {| type := Some info |}) in
        reducer s1 (BULK_MESSAGES [ack])
    | collecting =>
        match baseSteps !! stepIndex state with
        | None => ret s1
        | Some currentStep =>
            match LeadStep.parse currentStep trimmed (lead state) with
            | ParseFailure retryMessage => reducer s1 (RETRY retryMessage)
            | ParseSuccess updates followUp =>
                let nextLead := spread (lead state) updates in
                let willComplete := (length baseSteps <=? stepIndex state + 1)%nat in
                let* s2 := reducer s1 (ADVANCE updates followUp) in
                if willComplete then
                  let* s3 := reducer s2 (COMPLETE (Some closingFollowUp)) in
                  let* sm := agentMessage (renderSummary nextLead) None
                               (Some {| type := Some summary |}) in
                  let* cp := agentMessage closingPrompt None None in
                  reducer s3 (BULK_MESSAGES [sm; cp])
                else ret s2
            end
        end
    end.

Definition resetConversation (state : AgentState) : Eff AgentState :=
  reducer state RESET.

(** *** Runs of the engine *)

(** One [handleSubmit] per input, each on the state the previous left. *)
Fixpoint submitAll (inputs : list string) (state : AgentState) : Eff AgentState :=
  match inputs with
  | [] => ret state
  | x :: rest =>
      let* next := handleSubmit (Some x) EmptyString state in
      submitAll rest next
  end.

(** What the active step's parse contract says of an input, if the state
    is collecting, has an active step and the input is not blank. *)
Definition verdict (state : AgentState) (x : string) : option ParseResult :=
  match status state, baseSteps !! stepIndex state with
  | collecting, Some step =>
      if nonEmpty (trim x)
      then Some (LeadStep.parse step (trim x) (lead state))
      else None
  | _, _ => None
  end.

Definition accepted (state : AgentState) (x : string) : bool :=
  match verdict state x with
  | Some (ParseSuccess _ _) => true
  | _ => false
  end.

Definition rejected (state : AgentState) (x : string) : bool :=
  match verdict state x with
  | Some (ParseFailure _) => true
  | _ => false
  end.

(** Every input of the run is accepted by the step active when it is
    submitted. *)
Fixpoint allAccepted (inputs : list string) (state : AgentState) (n : nat) : bool :=
  match inputs with
  | [] => true
  | x :: rest =>
      accepted state x
      && match handleSubmit (Some x) EmptyString state n with
         | Some (next, n') => allAccepted rest next n'
         | None => false
         end
  end.

(** The states a session can be in: the opening state, and whatever
    [handleSubmit] and [resetConversation] make of a reachable state. *)
Inductive reachable : AgentState -> Prop :=
| reach_open n state n' :
    openingState n = Some (state, n') -> reachable state
| reach_submit state value input n state' n' :
    reachable state ->
    handleSubmit value input state n = Some (state', n') ->
    reachable state'
| reach_reset state n state' n' :
    reachable state ->
    resetConversation state n = Some (state', n') ->
    reachable state'.

(** The messages [submit] logs in each case, given their identifiers. *)
Definition userMsg (i : string) (text : string) : Message.t :=
  {| Message.id := i; Message.sender := user; Message.content := text;
     Message.suggestions := None; Message.meta := None |}.

Definition agentMsg (i : string) (text : string) (tag : option MetaType)
    : Message.t :=
  {| Message.id := i; Message.sender := agent; Message.content := text;
     Message.suggestions := None;
     Message.meta := match tag with
                     | Some t => Some {| type := Some t |}
                     | None => None
                     end |}.

Definition questionMsg (i : string) (step : LeadStep.t) (index : option nat)
    : Message.t :=
  {| Message.id := i; Message.sender := agent;
     Message.content := questionContent step index;
     Message.suggestions := LeadStep.suggestions step;
     Message.meta := Some {| type := Some question |} |}.

(** The follow-up of a successful parse, logged only when truthy. *)
Definition followUpMsgs (i : string) (followUp : option string) : list Message.t :=
  if present followUp
  then [agentMsg i (default EmptyString followUp) None]
  else [].

(** Identifiers drawn for the optional follow-up. *)
Definition followUpIds (followUp : option string) : nat :=
  if present followUp then 1 else 0.

(** The cursor is inside the table exactly while collecting. *)
Definition wellFormed (state : AgentState) : Prop :=
  match status state with
  | collecting => stepIndex state < length baseSteps
  | complete => length baseSteps <= stepIndex state
  end.

(** *** What one submission does, case by case *)

Lemma willComplete_lookup (i : nat) :
  (length baseSteps <=? i)%nat = true <-> baseSteps !! i = None.
Proof.
  rewrite Nat.leb_le. split.
  - apply lookup_ge_None_2.
  - apply lookup_ge_None_1.
Qed.

Lemma handleSubmit_blank value input state n :
  nonEmpty (trim (submitted value input)) = false ->
  handleSubmit value input state n = Some (state, n).
Proof. intros Hb. unfold handleSubmit. rewrite Hb. reflexivity. Qed.

Lemma handleSubmit_complete value input state n :
  nonEmpty (trim (submitted value input)) = true ->
  status state = complete ->
  handleSubmit value input state n =
    Some ({| stepIndex := stepIndex state;
             lead := lead state;
             messages :=
               messages state
               ++ [userMsg (uuid n) (trim (submitted value input));
                   agentMsg (uuid (S n)) ackText (Some info)];
             status := complete |}, S (S n)).
Proof.
  intros Hn Hs. unfold handleSubmit. rewrite Hn, Hs. cbn.
  rewrite Hs, <- app_assoc. reflexivity.
Qed.

Lemma handleSubmit_no_step value input state n :
  nonEmpty (trim (submitted value input)) = true ->
  status state = collecting ->
  baseSteps !! stepIndex state = None ->
  handleSubmit value input state n =
    Some ({| stepIndex := stepIndex state;
             lead := lead state;
             messages :=
               messages state ++ [userMsg (uuid n) (trim (submitted value input))];
             status := collecting |}, S n).
Proof.
  intros Hn Hs Hl. unfold handleSubmit. rewrite Hn, Hs, Hl. cbn.
  rewrite Hs. reflexivity.
Qed.

Lemma handleSubmit_retry value input state n step retryMessage :
  nonEmpty (trim (submitted value input)) = true ->
  status state = collecting ->
  baseSteps !! stepIndex state = Some step ->
  LeadStep.parse step (trim (submitted value input)) (lead state)
    = ParseFailure retryMessage ->
  handleSubmit value input state n =
    Some ({| stepIndex := stepIndex state;
             lead := lead state;
             messages :=
               messages state
               ++ [userMsg (uuid n) (trim (submitted value input));
                   agentMsg (uuid (S n)) retryMessage (Some info);
                   questionMsg (uuid (S (S n))) step (Some (stepIndex state))];
             status := collecting |}, S (S (S n))).
Proof.
  intros Hn Hs Hl Hp. unfold handleSubmit. rewrite Hn, Hs, Hl, Hp. cbn.
  rewrite Hl. cbn. rewrite Hs, <- app_assoc. reflexivity.
Qed.

Lemma handleSubmit_advance value input state n step updates followUp next :
  nonEmpty (trim (submitted value input)) = true ->
  status state = collecting ->
  baseSteps !! stepIndex state = Some step ->
  LeadStep.parse step (trim (submitted value input)) (lead state)
    = ParseSuccess updates followUp ->
  baseSteps !! (stepIndex state + 1) = Some next ->
  handleSubmit value input state n =
    Some ({| stepIndex := stepIndex state + 1;
             lead := spread (lead state) updates;
             messages :=
               messages state
               ++ [userMsg (uuid n) (trim (submitted value input))]
               ++ followUpMsgs (uuid (S n)) followUp
               ++ [questionMsg (uuid (S n + followUpIds followUp)) next
                     (Some (stepIndex state + 1))];
             status := collecting |}, S (S n + followUpIds followUp)).
Proof.
  intros Hn Hs Hl Hp Hnext. unfold handleSubmit. rewrite Hn, Hs, Hl, Hp. cbn.
  assert (Hw : (length baseSteps <=? stepIndex state + 1)%nat = false).
  { destruct (length baseSteps <=? stepIndex state + 1)%nat eqn:E; [|done].
    apply willComplete_lookup in E. congruence. }
  rewrite Hw. unfold followUpMsgs, followUpIds.
  destruct (present followUp); cbn; rewrite Hnext; cbn;
    rewrite Hs, <- ?app_assoc, ?Nat.add_0_r, ?Nat.add_1_r; reflexivity.
Qed.

Lemma handleSubmit_finish value input state n step updates followUp :
  nonEmpty (trim (submitted value input)) = true ->
  status state = collecting ->
  baseSteps !! stepIndex state = Some step ->
  LeadStep.parse step (trim (submitted value input)) (lead state)
    = ParseSuccess updates followUp ->
  baseSteps !! (stepIndex state + 1) = None ->
  handleSubmit value input state n =
    Some ({| stepIndex := stepIndex state + 1;
             lead := spread (lead state) updates;
             messages :=
               messages state
               ++ [userMsg (uuid n) (trim (submitted value input))]
               ++ followUpMsgs (uuid (S n)) followUp
               ++ [agentMsg (uuid (S n + followUpIds followUp)) closingFollowUp None;
                   agentMsg (uuid (S (S n + followUpIds followUp)))
                     (renderSummary (spread (lead state) updates)) (Some summary);
                   agentMsg (uuid (S (S (S n + followUpIds followUp))))
                     closingPrompt None];
             status := complete |}, S (S (S (S n + followUpIds followUp)))).
Proof.
  intros Hn Hs Hl Hp Hnext. unfold handleSubmit. rewrite Hn, Hs, Hl, Hp. cbn.
  assert (Hw : (length baseSteps <=? stepIndex state + 1)%nat = true)
    by (by apply willComplete_lookup).
  rewrite Hw. unfold followUpMsgs, followUpIds.
  destruct (present followUp); cbn; rewrite Hnext; cbn;
    rewrite <- ?app_assoc, ?Nat.add_0_r, ?Nat.add_1_r; reflexivity.
Qed.

Ltac submit_cases value input state n :=
  let t := constr:(trim (submitted value input)) in
  let Hne := fresh "Hne" in
  let Hst := fresh "Hst" in
  let Hstep := fresh "Hstep" in
  let Hparse := fresh "Hparse" in
  let Hnext := fresh "Hnext" in
  destruct (nonEmpty t) eqn:Hne;
  [ destruct (status state) eqn:Hst;
    [ destruct (baseSteps !! stepIndex state) as [?step|] eqn:Hstep;
      [ destruct (LeadStep.parse step t (lead state))
          as [?updates ?followUp|?retryMessage] eqn:Hparse;
        [ destruct (baseSteps !! (stepIndex state + 1)) as [?next|] eqn:Hnext;
          [ rewrite (handleSubmit_advance value input state n _ _ _ _
                       Hne Hst Hstep Hparse Hnext)
          | rewrite (handleSubmit_finish value input state n _ _ _
                       Hne Hst Hstep Hparse Hnext) ]
        | rewrite (handleSubmit_retry value input state n _ _
                     Hne Hst Hstep Hparse) ]
      | rewrite (handleSubmit_no_step value input state n Hne Hst Hstep) ]
    | rewrite (handleSubmit_complete value input state n Hne Hst) ]
  | rewrite (handleSubmit_blank value input state n Hne) ].

(** [handleSubmit] never throws, and only ever appends to the log. *)
Lemma handleSubmit_total value input state n :
  exists after n' new,
    handleSubmit value input state n = Some (after, n')
    /\ messages after = messages state ++ new.
Proof.
  submit_cases value input state n; eexists _, _, _; (split; [reflexivity|]);
    cbn; try reflexivity.
  symmetry. apply app_nil_r.
Qed.

Lemma verdict_inv state x result :
  verdict state x = Some result ->
  status state = collecting
  /\ nonEmpty (trim x) = true
  /\ exists step,
       baseSteps !! stepIndex state = Some step
       /\ LeadStep.parse step (trim x) (lead state) = result.
Proof.
  unfold verdict. destruct (status state); [|done].
  destruct (baseSteps !! stepIndex state) as [step|]; [|done].
  destruct (nonEmpty (trim x)); [|done].
  intros [= <-]. eauto.
Qed.

Lemma rejected_inv state x :
  rejected state x = true ->
  status state = collecting
  /\ nonEmpty (trim x) = true
  /\ exists step retryMessage,
       baseSteps !! stepIndex state = Some step
       /\ LeadStep.parse step (trim x) (lead state) = ParseFailure retryMessage.
Proof.
  unfold rejected. destruct (verdict state x) as [[u f|r]|] eqn:E; try done.
  intros _. apply verdict_inv in E as (? & ? & step & ? & ?). eauto 8.
Qed.

Lemma accepted_inv state x :
  accepted state x = true ->
  status state = collecting
  /\ nonEmpty (trim x) = true
  /\ exists step updates followUp,
       baseSteps !! stepIndex state = Some step
       /\ LeadStep.parse step (trim x) (lead state)
          = ParseSuccess updates followUp.
Proof.
  unfold accepted. destruct (verdict state x) as [[u f|r]|] eqn:E; try done.
  intros _. apply verdict_inv in E as (? & ? & step & ? & ?). eauto 8.
Qed.

(** The verdict reads the cursor, the record and the status only. *)
Lemma verdict_frame state state' x :
  stepIndex state' = stepIndex state ->
  lead state' = lead state ->
  status state' = status state ->
  verdict state' x = verdict state x.
Proof. intros H1 H2 H3. unfold verdict. by rewrite H1, H2, H3. Qed.

Lemma accepted_step state x n :
  accepted state x = true ->
  exists after n',
    handleSubmit (Some x) EmptyString state n = Some (after, n')
    /\ stepIndex after = stepIndex state + 1
    /\ status after
       = (if (length baseSteps <=? stepIndex after)%nat then complete else collecting).
Proof.
  intros (Hs & Hn & step & u & f & Hl & Hp)%accepted_inv.
  destruct (baseSteps !! (stepIndex state + 1)) as [next|] eqn:Hnext.
  - rewrite (handleSubmit_advance (Some x) EmptyString state n _ _ _ _
               Hn Hs Hl Hp Hnext).
    eexists _, _. split; [reflexivity|]. cbn. split; [done|].
    destruct (length baseSteps <=? stepIndex state + 1)%nat eqn:E; [|done].
    apply willComplete_lookup in E. congruence.
  - rewrite (handleSubmit_finish (Some x) EmptyString state n _ _ _
               Hn Hs Hl Hp Hnext).
    eexists _, _. split; [reflexivity|]. cbn. split; [done|].
    apply willComplete_lookup in Hnext. by rewrite Hnext.
Qed.

Lemma rejected_step state x n :
  rejected state x = true ->
  exists after n',
    handleSubmit (Some x) EmptyString state n = Some (after, n')
    /\ stepIndex after = stepIndex state
    /\ lead after = lead state
    /\ status after = status state
    /\ length (messages after) = length (messages state) + 3.
Proof.
  intros (Hs & Hn & step & r & Hl & Hp)%rejected_inv.
  rewrite (handleSubmit_retry (Some x) EmptyString state n _ _ Hn Hs Hl Hp).
  eexists _, _. split; [reflexivity|]. cbn.
  rewrite length_app. cbn. done.
Qed.

Lemma submitAll_rejected fails : forall state n,
  Forall (fun f => rejected state f = true) fails ->
  exists after n',
    submitAll fails state n = Some (after, n')
    /\ stepIndex after = stepIndex state
    /\ lead after = lead state
    /\ status after = status state
    /\ length (messages after) = length (messages state) + 3 * length fails.
Proof.
  induction fails as [|f fails IH]; intros state n Hall.
  - exists state, n. cbn. repeat split; lia.
  - apply Forall_cons in Hall as [Hf Hall].
    destruct (rejected_step state f n Hf) as (mid & n1 & Hrun & Hi & Hl & Hs & Hlen).
    destruct (IH mid n1) as (after & n2 & Hrun' & Hi' & Hl' & Hs' & Hlen').
    { eapply Forall_impl; [exact Hall|]. intros y Hy. cbn in Hy.
      unfold rejected in *. by rewrite (verdict_frame state mid y Hi Hl Hs). }
    exists after, n2. cbn. unfold bind. rewrite Hrun.
    repeat split; [done|congruence..|]. cbn in *. lia.
Qed.

(** *** Reachable states *)

Lemma openingState_inv n state n' :
  openingState n = Some (state, n') ->
  exists step,
    baseSteps !! 0 = Some step
    /\ n' = S n
    /\ state = {| stepIndex := 0;
                  lead := ∅;
                  messages := [initialAgentMessage; questionMsg (uuid n) step None];
                  status := collecting |}.
Proof.
  unfold openingState. destruct (baseSteps !! 0) as [step|] eqn:E; [|done].
  cbn. intros [= <- <-]. eauto.
Qed.

Lemma openingState_first n step :
  baseSteps !! 0 = Some step ->
  openingState n
    = Some ({| stepIndex := 0;
               lead := ∅;
               messages := [initialAgentMessage; questionMsg (uuid n) step None];
               status := collecting |}, S n).
Proof. intros Hl. unfold openingState. by rewrite Hl. Qed.

Lemma reachable_first_step state :
  reachable state -> exists step, baseSteps !! 0 = Some step.
Proof.
  induction 1 as [n state n' Hopen| |]; try done.
  apply openingState_inv in Hopen as (step & ? & _). eauto.
Qed.

Lemma reachable_wellFormed state : reachable state -> wellFormed state.
Proof.
  induction 1 as [n state n' Hopen
                 |state value input n state' n' _ IH Hrun
                 |state n state' n' _ _ Hrun].
  - apply openingState_inv in Hopen as (step & Hl & _ & ->).
    unfold wellFormed. cbn. by apply lookup_lt_Some in Hl.
  - revert Hrun. unfold wellFormed in *.
    submit_cases value input state n; intros [= <- <-]; cbn;
      rewrite ?Hst in IH; try done.
    + apply lookup_lt_Some in Hnext. lia.
    + apply lookup_ge_None_1 in Hnext. lia.
  - apply openingState_inv in Hrun as (step & Hl & _ & ->).
    unfold wellFormed. cbn. by apply lookup_lt_Some in Hl.
Qed.

(** *** White space *)

Lemma isWs2_lead a b : isWs2 a b = true -> isWs1 a = false.
Proof.
  unfold isWs2, isWs1. intros [Ha _]%andb_true_iff.
  apply N.eqb_eq in Ha. by rewrite Ha.
Qed.

Lemma isWs3_lead a b c :
  isWs3 a b c = true -> isWs1 a = false /\ isWs2 a b = false.
Proof.
  unfold isWs3, isWs2, isWs1. intros H.
  assert (Ha : code a = 225%N \/ code a = 226%N \/ code a = 227%N
               \/ code a = 239%N).
  { rewrite !orb_true_iff, !andb_true_iff, !N.eqb_eq in H. intuition. }
  destruct Ha as [-> | [-> | [-> | ->]]]; done.
Qed.

Lemma trimStart_whitespace s : WhiteSpaceOnly s -> trimStart s = EmptyString.
Proof.
  induction 1 as [|a r Ha _ IH|a b r Hab _ IH|a b c r Habc _ IH]; cbn.
  - reflexivity.
  - by rewrite Ha.
  - by rewrite (isWs2_lead a b Hab), Hab.
  - destruct (isWs3_lead a b c Habc) as [-> ->]. by rewrite Habc.
Qed.

Lemma trim_whitespace s : WhiteSpaceOnly s -> trim s = EmptyString.
Proof. intros H. unfold trim. by rewrite (trimStart_whitespace s H). Qed.

Example trim_both_ends : trim "  Acme Robotics " = "Acme Robotics".
Proof. reflexivity. Qed.

Example trim_no_break_space :
  trim (String "194" (String "160" "asap" +:+ nl)) = "asap".
Proof. reflexivity. Qed.

Example trim_blank : trim blankInput = EmptyString.
Proof. reflexivity. Qed.

(** *** The engine's transitions *)

(** C2: while collecting, a non-blank input that the active step's parse
    rejects makes [handleSubmit] append exactly three messages (the user's
    trimmed text, an info message with the retry text, the active step's
    question again) and leaves cursor, record and status as they were.
    Hence after any number of rejected inputs in a row the cursor and the
    record are unchanged, and the next accepted input moves the cursor by
    one. *)
Theorem rejected_input_reprompts
    (state : AgentState) (value : option string) (input : string)
    (fails : list string) (n : nat) :
  rejected state (submitted value input) = true ->
  Forall (fun f => rejected state f = true) fails ->
  (exists step retryMessage i1 i2 i3 after n',
      baseSteps !! stepIndex state = Some step
      /\ LeadStep.parse step (trim (submitted value input)) (lead state)
         = ParseFailure retryMessage
      /\ handleSubmit value input state n = Some (after, n')
      /\ messages after
         = messages state
           ++ [userMsg i1 (trim (submitted value input));
               agentMsg i2 retryMessage (Some info);
               questionMsg i3 step (Some (stepIndex state))]
      /\ stepIndex after = stepIndex state
      /\ lead after = lead state
      /\ status after = collecting)
  /\ (exists after n',
        submitAll fails state n = Some (after, n')
        /\ stepIndex after = stepIndex state
        /\ lead after = lead state
        /\ status after = collecting
        /\ length (messages after) = length (messages state) + 3 * length fails
        /\ forall y, accepted state y = true ->
             exists final n'',
               handleSubmit (Some y) EmptyString after n' = Some (final, n'')
               /\ stepIndex final = stepIndex state + 1).
Proof.
  intros Hrej Hall. split.
  - apply rejected_inv in Hrej as (Hs & Hn & step & r & Hl & Hp).
    exists step, r, (uuid n), (uuid (S n)), (uuid (S (S n))).
    rewrite (handleSubmit_retry value input state n _ _ Hn Hs Hl Hp).
    eexists _, _. repeat split; try done.
  - destruct (submitAll_rejected fails state n Hall)
      as (after & n' & Hrun & Hi & Hl & Hs & Hlen).
    exists after, n'. repeat split; try done.
    + rewrite Hs. by apply rejected_inv in Hrej as [? _].
    + intros y Hy.
      assert (Hy' : accepted after y = true).
      { unfold accepted in *. by rewrite (verdict_frame state after y Hi Hl Hs). }
      destruct (accepted_step after y n' Hy') as (final & n'' & Hf & Hidx & _).
      exists final, n''. split; [done|]. congruence.
Qed.

(** C3, as the code has it: an input that is empty or white space only is
    dropped by the guard at the head of [handleSubmit]; the state comes
    back as it was (nothing is logged, no identifier is drawn, the cursor
    and the record are untouched), so the step is not skipped, and no retry
    message is produced either. *)
Theorem blank_input_is_dropped
    (state : AgentState) (value : option string) (input : string) (n : nat) :
  WhiteSpaceOnly (submitted value input) ->
  handleSubmit value input state n = Some (state, n).
Proof.
  intros Hws. apply handleSubmit_blank.
  by rewrite (trim_whitespace _ Hws).
Qed.

(** C4, as the code has it: while collecting, a non-blank input that the
    active step's parse accepts makes [handleSubmit] append the user's
    trimmed text, replace the record by the spread of the old record and
    the updates (a key outside the updates keeps its value), append the
    parse's follow-up when it is a non-empty text, as an agent message
    without a tag, and move the cursor by one.  With a next step, its
    question follows and the state stays collecting.  A question built
    without an index or at index 0 is the step's question verbatim; at a
    later index a non-empty helper follows it on a new line. *)
Theorem accepted_input_advances
    (state : AgentState) (value : option string) (input : string) (n : nat)
    (step : LeadStep.t) (updates : LeadProfile) (followUp : option string) :
  status state = collecting ->
  baseSteps !! stepIndex state = Some step ->
  nonEmpty (trim (submitted value input)) = true ->
  LeadStep.parse step (trim (submitted value input)) (lead state)
    = ParseSuccess updates followUp ->
  (exists after n' i1 i2 rest,
      handleSubmit value input state n = Some (after, n')
      /\ stepIndex after = stepIndex state + 1
      /\ lead after = updates ∪ lead state
      /\ (forall k, updates !! k = None -> lead after !! k = lead state !! k)
      /\ (forall k v, updates !! k = Some v -> lead after !! k = Some v)
      /\ messages after
         = messages state
           ++ [userMsg i1 (trim (submitted value input))]
           ++ (if present followUp
               then [agentMsg i2 (default EmptyString followUp) None]
               else [])
           ++ rest
      /\ (forall next, baseSteps !! (stepIndex state + 1) = Some next ->
           status after = collecting
           /\ exists i3,
               rest = [questionMsg i3 next (Some (stepIndex state + 1))]))
  /\ (forall s, questionContent s None = LeadStep.question s
               /\ questionContent s (Some 0) = LeadStep.question s)
  /\ (forall s i h, LeadStep.helper s = Some h -> nonEmpty h = true ->
         questionContent s (Some (S i)) = LeadStep.question s +:+ nl +:+ h)
  /\ (forall s i, present (LeadStep.helper s) = false ->
         questionContent s (Some (S i)) = LeadStep.question s +:+ EmptyString).
Proof.
  intros Hs Hl Hn Hp. split; [|split; [|split]].
  - assert (Hkeep : forall k, updates !! k = None ->
              (updates ∪ lead state) !! k = lead state !! k)
      by (intros k Hk; by apply lookup_union_r).
    assert (Hset : forall k v, updates !! k = Some v ->
              (updates ∪ lead state) !! k = Some v)
      by (intros k v Hk; by apply lookup_union_Some_l).
    destruct (baseSteps !! (stepIndex state + 1)) as [next|] eqn:Hnext.
    + rewrite (handleSubmit_advance value input state n _ _ _ _
                 Hn Hs Hl Hp Hnext).
      eexists _, _, (uuid n), (uuid (S n)), _. cbn.
      split; [reflexivity|]. split; [reflexivity|]. split; [reflexivity|].
      split; [exact Hkeep|]. split; [exact Hset|].
      split; [reflexivity|].
      intros next' [= <-]. eauto.
    + rewrite (handleSubmit_finish value input state n _ _ _
                 Hn Hs Hl Hp Hnext).
      eexists _, _, (uuid n), (uuid (S n)), _. cbn.
      split; [reflexivity|]. split; [reflexivity|]. split; [reflexivity|].
      split; [exact Hkeep|]. split; [exact Hset|].
      split; [reflexivity|].
      intros next' [=].
  - done.
  - intros s i h Hh Hne. cbn. unfold present. by rewrite Hh, Hne.
  - intros s i Hh. cbn. by rewrite Hh.
Qed.

(** C5: from every reachable state, mid-collection or complete,
    [resetConversation] returns a state with cursor 0, the empty record,
    status collecting and a log made of the greeting and the first step's
    question; up to the identifier of that question it is the state a
    fresh opening gives. *)
Theorem reset_is_fresh_opening (state : AgentState) (n : nat) :
  reachable state ->
  exists after n' step i,
    resetConversation state n = Some (after, n')
    /\ baseSteps !! 0 = Some step
    /\ stepIndex after = 0
    /\ lead after = ∅
    /\ messages after = [initialAgentMessage; questionMsg i step None]
    /\ status after = collecting
    /\ forall n0 fresh n0',
         openingState n0 = Some (fresh, n0') -> observe after = observe fresh.
Proof.
  intros [step Hl]%reachable_first_step.
  unfold resetConversation, reducer.
  rewrite (openingState_first n step Hl).
  eexists _, _, step, (uuid n). repeat split; try done.
  intros n0 fresh n0' (step' & Hl' & _ & ->)%openingState_inv.
  rewrite Hl in Hl'. by injection Hl' as <-.
Qed.

(** C6: in a complete state a non-blank input makes [handleSubmit] append
    the user's trimmed text and the fixed acknowledgement, nothing else;
    record, cursor and status are unchanged. *)
Theorem complete_state_acknowledges
    (state : AgentState) (value : option string) (input : string) (n : nat) :
  status state = complete ->
  nonEmpty (trim (submitted value input)) = true ->
  exists after n' i1 i2,
    handleSubmit value input state n = Some (after, n')
    /\ messages after
       = messages state
         ++ [userMsg i1 (trim (submitted value input));
             agentMsg i2 ackText (Some info)]
    /\ lead after = lead state
    /\ stepIndex after = stepIndex state
    /\ status after = complete.
Proof.
  intros Hs Hn. rewrite (handleSubmit_complete value input state n Hn Hs).
  by eexists _, _, (uuid n), (uuid (S n)).
Qed.

(** C8: with the cursor beyond the step table [handleSubmit] does not
    throw and runs no parse: it returns a state with the same cursor,
    record and status, and logs no retry.  A non-blank input is logged,
    followed by the acknowledgement of a complete conversation when the
    status is complete, and every reachable state with such a cursor is
    complete. *)
Theorem cursor_beyond_steps_is_completion
    (state : AgentState) (value : option string) (input : string) (n : nat) :
  baseSteps !! stepIndex state = None ->
  exists after n' new,
    handleSubmit value input state n = Some (after, n')
    /\ stepIndex after = stepIndex state
    /\ lead after = lead state
    /\ status after = status state
    /\ messages after = messages state ++ new
    /\ (nonEmpty (trim (submitted value input)) = true ->
        exists i1 i2,
          new = userMsg i1 (trim (submitted value input))
                :: match status state with
                   | complete => [agentMsg i2 ackText (Some info)]
                   | collecting => []
                   end)
    /\ (reachable state -> status state = complete).
Proof.
  intros Hnone.
  assert (Hreach : reachable state -> status state = complete).
  { intros Hw%reachable_wellFormed. unfold wellFormed in Hw.
    destruct (status state); [|done].
    apply lookup_ge_None_1 in Hnone. lia. }
  destruct (nonEmpty (trim (submitted value input))) eqn:Hn.
  - destruct (status state) eqn:Hs.
    + rewrite (handleSubmit_no_step value input state n Hn Hs Hnone).
      eexists _, _, _. do 5 (split; [reflexivity|]).
      split; [|done]. intros _. by exists (uuid n), (uuid n).
    + rewrite (handleSubmit_complete value input state n Hn Hs).
      eexists _, _, _. do 5 (split; [reflexivity|]).
      split; [|done]. intros _. by exists (uuid n), (uuid (S n)).
  - rewrite (handleSubmit_blank value input state n Hn).
    exists state, n, []. do 4 (split; [reflexivity|]).
    split; [by rewrite app_nil_r|]. split; [done|]. exact Hreach.
Qed.

(** C9: every submission, accepted, rejected, blank or made while
    complete, returns a state whose log is the old log with messages added
    at the end; so does every reducer action other than [INIT] and
    [RESET]. *)
Theorem log_is_append_only
    (state : AgentState) (value : option string) (input : string) (n : nat) :
  (exists after n' new,
      handleSubmit value input state n = Some (after, n')
      /\ messages after = messages state ++ new)
  /\ (forall action after n',
        action <> INIT -> action <> RESET ->
        reducer state action n = Some (after, n') ->
        exists new, messages after = messages state ++ new).
Proof.
  split; [apply handleSubmit_total|].
  intros action after n' Hi Hr.
  destruct action as [|m|ms|u f| r |f|]; try done; cbn; unfold bind.
  - intros [= <- _]. eauto.
  - intros [= <- _]. eauto.
  - destruct (present f); cbn;
      destruct (baseSteps !! (stepIndex state + 1)); cbn;
      intros [= <- _]; cbn; eauto.
  - destruct (baseSteps !! stepIndex state); cbn; [|done].
    intros [= <- _]. cbn. eauto.
  - destruct (present f); cbn; intros [= <- _]; cbn; eauto.
Qed.

(** *** Runs of accepted answers *)

Lemma submitAll_app xs ys state n :
  submitAll (xs ++ ys) state n
  = match submitAll xs state n with
    | Some (mid, n') => submitAll ys mid n'
    | None => None
    end.
Proof.
  revert state n. induction xs as [|x xs IH]; intros state n; [done|].
  cbn. unfold bind.
  destruct (handleSubmit (Some x) EmptyString state n) as [[next n1]|]; [|done].
  apply IH.
Qed.

Lemma allAccepted_app xs ys state n :
  allAccepted (xs ++ ys) state n = true ->
  allAccepted xs state n = true
  /\ forall mid n', submitAll xs state n = Some (mid, n') ->
       allAccepted ys mid n' = true.
Proof.
  revert state n. induction xs as [|x xs IH]; intros state n; cbn.
  - intros H. split; [done|]. by intros mid n' [= <- <-].
  - intros [Hx Hrest]%andb_true_iff. unfold bind. rewrite Hx. cbn.
    destruct (handleSubmit (Some x) EmptyString state n) as [[next n1]|]; [|done].
    by apply IH.
Qed.

Lemma submitAll_accepted xs : forall state n,
  status state
    = (if (length baseSteps <=? stepIndex state)%nat then complete else collecting) ->
  allAccepted xs state n = true ->
  exists after n',
    submitAll xs state n = Some (after, n')
    /\ stepIndex after = stepIndex state + length xs
    /\ status after
       = (if (length baseSteps <=? stepIndex after)%nat then complete else collecting).
Proof.
  induction xs as [|x xs IH]; intros state n Hwf; cbn.
  - intros _. exists state, n. by rewrite Nat.add_0_r.
  - intros [Hx Hrest]%andb_true_iff.
    destruct (accepted_step state x n Hx) as (next & n1 & Hrun & Hidx & Hs).
    rewrite Hrun in Hrest.
    destruct (IH next n1 Hs Hrest) as (after & n2 & Hrun' & Hidx' & Hs').
    exists after, n2. unfold bind. rewrite Hrun.
    split; [done|]. split; [lia|done].
Qed.

(** C1: start from the opening state and submit one input per step
    definition, each accepted by the step active when it is submitted.
    After [k] of them the cursor is [k], and the status is complete exactly
    when [k] is the number of steps: completion comes once, with the last
    submission, whatever the answers are.  That last submission logs the
    user's text, the parse's optional follow-up, then the closing
    follow-up, the summary of the final record and the closing prompt. *)
Theorem all_steps_answered_completes
    (inputs : list string) (start : AgentState) (n0 n1 : nat) :
  openingState n0 = Some (start, n1) ->
  length inputs = length baseSteps ->
  allAccepted inputs start n1 = true ->
  (forall k, k <= length inputs ->
     exists mid nk,
       submitAll (take k inputs) start n1 = Some (mid, nk)
       /\ stepIndex mid = k
       /\ (status mid = complete <-> k = length baseSteps))
  /\ (exists earlier x before nb final nf step updates followUp i1 i2 i3 i4 i5,
        inputs = earlier ++ [x]
        /\ submitAll earlier start n1 = Some (before, nb)
        /\ status before = collecting
        /\ baseSteps !! stepIndex before = Some step
        /\ LeadStep.parse step (trim x) (lead before)
           = ParseSuccess updates followUp
        /\ handleSubmit (Some x) EmptyString before nb = Some (final, nf)
        /\ submitAll inputs start n1 = Some (final, nf)
        /\ status final = complete
        /\ lead final = updates ∪ lead before
        /\ messages final
           = messages before
             ++ [userMsg i1 (trim x)]
             ++ (if present followUp
                 then [agentMsg i2 (default EmptyString followUp) None]
                 else [])
             ++ [agentMsg i3 closingFollowUp None;
                 agentMsg i4 (renderSummary (lead final)) (Some summary);
                 agentMsg i5 closingPrompt None]).
Proof.
  intros Hopen Hlen Hall.
  apply openingState_inv in Hopen as (first & Hfirst & _ & Hstart).
  assert (Hpos : 0 < length baseSteps) by (by apply lookup_lt_Some in Hfirst).
  assert (Hwf : status start
            = (if (length baseSteps <=? stepIndex start)%nat
               then complete else collecting)).
  { rewrite Hstart. cbn. by destruct (Nat.leb_spec (length baseSteps) 0); [lia|]. }
  assert (Hidx0 : stepIndex start = 0) by (by rewrite Hstart).
  split.
  - intros k Hk.
    rewrite <- (take_drop k inputs) in Hall.
    apply allAccepted_app in Hall as [Htake _].
    destruct (submitAll_accepted _ start n1 Hwf Htake)
      as (mid & nk & Hrun & Hidx & Hs).
    rewrite length_take, Hidx0 in Hidx.
    exists mid, nk. split; [done|]. split; [lia|].
    rewrite Hs. destruct (Nat.leb_spec (length baseSteps) (stepIndex mid));
      split; intros; try done; lia.
  - destruct inputs as [|x0 inputs0 _] using rev_ind; [cbn in Hlen; lia|].
    rename inputs0 into earlier, x0 into x.
    rewrite length_app in Hlen. cbn in Hlen.
    pose proof Hall as Hall'.
    apply allAccepted_app in Hall as [Hearlier Hlast].
    destruct (submitAll_accepted _ start n1 Hwf Hearlier)
      as (before & nb & Hrun & Hidx & Hs).
    rewrite Hidx0 in Hidx. cbn in Hidx.
    specialize (Hlast before nb Hrun). cbn in Hlast.
    apply andb_true_iff in Hlast as [Hx _].
    apply accepted_inv in Hx as (Hcol & Hn & step & updates & followUp & Hl & Hp).
    assert (Hnext : baseSteps !! (stepIndex before + 1) = None)
      by (apply lookup_ge_None_2; lia).
    pose proof (handleSubmit_finish (Some x) EmptyString before nb _ _ _
                  Hn Hcol Hl Hp Hnext) as Hfin.
    eexists earlier, x, before, nb, _, _, step, updates, followUp,
      (uuid nb), (uuid (S nb)), _, _, _.
    split; [done|]. split; [done|]. split; [done|]. split; [done|].
    split; [done|]. split; [exact Hfin|].
    split; [by rewrite submitAll_app, Hrun; cbn; unfold bind; rewrite Hfin|].
    cbn. done.
Qed.

(** *** The recap *)

(** C7, as the code has it: the summary is the header and, one per line
    and in this order, a company line when the company name is truthy, a
    goal line, a challenge line, a budget line when the budget label or
    else the budget value is truthy, a timeline line and a contact line
    when the contact name is truthy; a line whose key field is missing or
    empty is left out.  Inside the company line a missing industry reads
    unknown vertical, inside the contact line a missing email reads email
    pending. *)
Theorem summary_lines_in_order (lead : LeadProfile) :
  renderSummary lead
  = "Quick recap:" +:+ nl
    +:+ String.concat nl
          (line (truthy (prop lead "companyName"))
             ("• " +:+ toStr (prop lead "companyName") +:+ " in "
              +:+ (if nullish (prop lead "industry") then "unknown vertical"
                   else toStr (prop lead "industry")))
           ++ line (truthy (prop lead "primaryGoal"))
                ("• Goal: " +:+ toStr (prop lead "primaryGoal"))
           ++ line (truthy (prop lead "painPoints"))
                ("• Challenge: " +:+ toStr (prop lead "painPoints"))
           ++ line (truthy (prop lead "budgetRange")
                    || truthy (prop lead "budgetValue"))
                ("• Budget comfort zone: "
                 +:+ (if truthy (prop lead "budgetRange")
                      then toStr (prop lead "budgetRange")
                      else "~$" +:+ toLocaleString (prop lead "budgetValue")))
           ++ line (truthy (prop lead "timeline"))
                ("• Timeline: " +:+ toStr (prop lead "timeline"))
           ++ line (truthy (prop lead "contactName"))
                ("• Contact: " +:+ toStr (prop lead "contactName") +:+ " ("
                 +:+ (if nullish (prop lead "contactEmail") then "email pending"
                      else toStr (prop lead "contactEmail"))
                 +:+ ")")).
Proof.
  unfold renderSummary, summaryLines, filterBoolean, line, orElse.
  do 2 f_equal.
  destruct (truthy (prop lead "companyName")),
    (truthy (prop lead "primaryGoal")),
    (truthy (prop lead "painPoints")),
    (truthy (prop lead "budgetRange")),
    (truthy (prop lead "budgetValue")),
    (truthy (prop lead "timeline")),
    (truthy (prop lead "contactName")); reflexivity.
Qed.

(** *** Further invariants of the session *)

(** X1: in every reachable state the quick replies on offer are those of
    the active step's question while collecting (none when the step has
    none), and there are none once the conversation is complete. *)
Theorem suggestions_follow_active_step (state : AgentState) :
  reachable state ->
  activeSuggestions state
  = match status state with
    | collecting =>
        match baseSteps !! stepIndex state with
        | Some step => default [] (LeadStep.suggestions step)
        | None => []
        end
    | complete => []
    end.
Proof.
  induction 1 as [n state n' Hopen
                 |state value input n state' n' Hreach IH Hrun
                 |state n state' n' _ _ Hrun].
  - apply openingState_inv in Hopen as (step & Hl & _ & ->). cbn. by rewrite Hl.
  - apply reachable_wellFormed in Hreach. unfold wellFormed in Hreach.
    revert Hrun.
    submit_cases value input state n; intros [= <- <-];
      unfold activeSuggestions; cbn [messages status stepIndex];
      rewrite ?rev_app_distr; unfold followUpMsgs.
    + destruct (present followUp); cbn; by rewrite Hnext.
    + destruct (present followUp); reflexivity.
    + cbn. by rewrite Hstep.
    + cbn in Hreach. apply lookup_ge_None_1 in Hstep. lia.
    + reflexivity.
    + exact IH.
  - apply openingState_inv in Hrun as (step & Hl & _ & ->). cbn. by rewrite Hl.
Qed.

(** X2: in every reachable state the cursor is at most the number of
    steps, and the status is complete exactly when the cursor equals it. *)
Theorem status_follows_cursor (state : AgentState) :
  reachable state ->
  stepIndex state <= length baseSteps
  /\ (status state = complete <-> stepIndex state = length baseSteps).
Proof.
  induction 1 as [n state n' Hopen
                 |state value input n state' n' _ IH Hrun
                 |state n state' n' _ _ Hrun].
  - apply openingState_inv in Hopen as (step & Hl & _ & ->). cbn.
    apply lookup_lt_Some in Hl. split; [lia|]. split; [done|lia].
  - revert Hrun.
    submit_cases value input state n; intros [= <- <-]; cbn; try exact IH.
    + apply lookup_lt_Some in Hnext. split; [lia|]. split; [done|lia].
    + apply lookup_ge_None_1 in Hnext. apply lookup_lt_Some in Hstep.
      split; [lia|]. split; [lia|done].
  - apply openingState_inv in Hrun as (step & Hl & _ & ->). cbn.
    apply lookup_lt_Some in Hl. split; [lia|]. split; [done|lia].
Qed.

(** *** One submission, property by property *)

Lemma handleSubmit_cursor state value input n after n' :
  handleSubmit value input state n = Some (after, n') ->
  stepIndex state <= stepIndex after <= stepIndex state + 1
  /\ stepIndex after <= stepIndex state `max` length baseSteps.
Proof.
  submit_cases value input state n; intros [= <- <-]; cbn; try lia.
  all: apply lookup_lt_Some in Hstep; lia.
Qed.

Lemma handleSubmit_complete_frame state value input n after n' :
  status state = complete ->
  handleSubmit value input state n = Some (after, n') ->
  status after = complete
  /\ stepIndex after = stepIndex state
  /\ lead after = lead state
  /\ length (messages after)
     = length (messages state)
       + (if nonEmpty (trim (submitted value input)) then 2 else 0).
Proof.
  intros Hc.
  destruct (nonEmpty (trim (submitted value input))) eqn:Hn.
  - rewrite (handleSubmit_complete value input state n Hn Hc).
    intros [= <- <-]. cbn. rewrite length_app. done.
  - rewrite (handleSubmit_blank value input state n Hn).
    intros [= <- <-]. repeat split; [done|lia].
Qed.

Lemma handleSubmit_keys state value input n after n' :
  handleSubmit value input state n = Some (after, n') ->
  dom (lead state) ⊆ dom (lead after).
Proof.
  submit_cases value input state n; intros [= <- <-]; cbn; try done.
  all: unfold spread; rewrite dom_union_L; set_solver.
Qed.

Lemma submittedTexts_cons x inputs :
  submittedTexts (x :: inputs)
  = (if nonEmpty (trim x) then [trim x] else []) ++ submittedTexts inputs.
Proof.
  unfold submittedTexts. rewrite fmap_cons, filter_cons.
  destruct (nonEmpty (trim x)); by case_decide.
Qed.

Lemma handleSubmit_userTexts state value input n after n' :
  handleSubmit value input state n = Some (after, n') ->
  userTexts (messages after)
  = userTexts (messages state)
    ++ (if nonEmpty (trim (submitted value input))
        then [trim (submitted value input)] else []).
Proof.
  submit_cases value input state n; intros [= <- <-]; cbn;
    unfold userTexts, followUpMsgs; rewrite ?omap_app; cbn;
    try (destruct (present followUp); cbn); by rewrite ?app_nil_r.
Qed.

Lemma handleSubmit_ids state value input n after n' :
  handleSubmit value input state n = Some (after, n') ->
  n <= n'
  /\ Message.id <$> messages after
     = (Message.id <$> messages state) ++ (uuid <$> seq n (n' - n)).
Proof.
  submit_cases value input state n; intros [= <- <-]; cbn;
    (split; [lia|]); rewrite ?fmap_app; unfold followUpMsgs, followUpIds.
  - destruct (present followUp); cbn.
    + replace (S (S (n + 1)) - n) with 3 by lia. cbn.
      by rewrite Nat.add_1_r.
    + replace (S (S (n + 0)) - n) with 2 by lia. cbn.
      by rewrite Nat.add_0_r.
  - destruct (present followUp); cbn.
    + replace (S (S (S (S (n + 1)))) - n) with 5 by lia. cbn.
      by rewrite Nat.add_1_r.
    + replace (S (S (S (S (n + 0)))) - n) with 4 by lia. cbn.
      by rewrite Nat.add_0_r.
  - replace (S (S (S n)) - n) with 3 by lia. done.
  - replace (S n - n) with 1 by lia. done.
  - replace (S (S n) - n) with 2 by lia. done.
  - rewrite Nat.sub_diag. cbn. by rewrite app_nil_r.
Qed.

Lemma handleSubmit_observe value input s1 s2 n1 n2 a1 m1 a2 m2 :
  observe s1 = observe s2 ->
  handleSubmit value input s1 n1 = Some (a1, m1) ->
  handleSubmit value input s2 n2 = Some (a2, m2) ->
  observe a1 = observe a2.
Proof.
  destruct s1 as [i l ms1 st], s2 as [i2 l2 ms2 st2].
  unfold observe at 1 2. cbn. intros [= -> -> Hms ->].
  submit_cases value input
    {| stepIndex := i2; lead := l2; messages := ms1; status := st2 |} n1.
  - rewrite (handleSubmit_advance value input
               {| stepIndex := i2; lead := l2; messages := ms2; status := st2 |}
               n2 _ _ _ _ Hne Hst Hstep Hparse Hnext).
    intros [= <- <-] [= <- <-]. unfold observe, followUpMsgs. cbn.
    rewrite !map_app, Hms. by destruct (present followUp).
  - rewrite (handleSubmit_finish value input
               {| stepIndex := i2; lead := l2; messages := ms2; status := st2 |}
               n2 _ _ _ Hne Hst Hstep Hparse Hnext).
    intros [= <- <-] [= <- <-]. unfold observe, followUpMsgs. cbn.
    rewrite !map_app, Hms. by destruct (present followUp).
  - rewrite (handleSubmit_retry value input
               {| stepIndex := i2; lead := l2; messages := ms2; status := st2 |}
               n2 _ _ Hne Hst Hstep Hparse).
    intros [= <- <-] [= <- <-]. unfold observe. cbn. by rewrite !map_app, Hms.
  - rewrite (handleSubmit_no_step value input
               {| stepIndex := i2; lead := l2; messages := ms2; status := st2 |}
               n2 Hne Hst Hstep).
    intros [= <- <-] [= <- <-]. unfold observe. cbn. by rewrite !map_app, Hms.
  - rewrite (handleSubmit_complete value input
               {| stepIndex := i2; lead := l2; messages := ms2; status := st2 |}
               n2 Hne Hst).
    intros [= <- <-] [= <- <-]. unfold observe. cbn. by rewrite !map_app, Hms.
  - rewrite (handleSubmit_blank value input
               {| stepIndex := i2; lead := l2; messages := ms2; status := st2 |}
               n2 Hne).
    intros [= <- <-] [= <- <-]. unfold observe. cbn. by rewrite Hms.
Qed.

Lemma submitAll_total inputs : forall state n,
  exists after n', submitAll inputs state n = Some (after, n').
Proof.
  induction inputs as [|x inputs IH]; intros state n; cbn; [by eexists _, _|].
  destruct (handleSubmit_total (Some x) EmptyString state n)
    as (mid & n1 & _ & Hrun & _).
  unfold bind. rewrite Hrun. apply IH.
Qed.

Lemma submitAll_cons x inputs state n after n' :
  submitAll (x :: inputs) state n = Some (after, n') ->
  exists mid n1,
    handleSubmit (Some x) EmptyString state n = Some (mid, n1)
    /\ submitAll inputs mid n1 = Some (after, n').
Proof.
  cbn. unfold bind.
  destruct (handleSubmit (Some x) EmptyString state n) as [[mid n1]|]; [|done].
  eauto.
Qed.

(** *** Runs of submissions *)

(** X3: any run of submissions ends (nothing throws); the cursor never goes
    back, moves by at most one per input, and never passes the end of the
    step table unless it started beyond it. *)
Theorem cursor_never_goes_back (inputs : list string) (state : AgentState) (n : nat) :
  exists after n',
    submitAll inputs state n = Some (after, n')
    /\ stepIndex state <= stepIndex after <= stepIndex state + length inputs
    /\ stepIndex after <= stepIndex state `max` length baseSteps.
Proof.
  revert state n. induction inputs as [|x inputs IH]; intros state n.
  - exists state, n. cbn. split; [done|lia].
  - destruct (handleSubmit_total (Some x) EmptyString state n)
      as (mid & n1 & _ & Hrun & _).
    destruct (IH mid n1) as (after & n' & Hrest & Hi & Hmax).
    apply handleSubmit_cursor in Hrun as Hstep.
    exists after, n'. cbn. unfold bind. rewrite Hrun.
    split; [done|]. lia.
Qed.

(** X4: complete is terminal for submissions: from a complete state every
    run of inputs ends in a complete state with the same cursor and the same
    record, and the log has grown by two messages per input that is not
    blank. *)
Theorem complete_is_terminal (inputs : list string) (state : AgentState) (n : nat) :
  status state = complete ->
  exists after n',
    submitAll inputs state n = Some (after, n')
    /\ status after = complete
    /\ stepIndex after = stepIndex state
    /\ lead after = lead state
    /\ length (messages after)
       = length (messages state) + 2 * length (submittedTexts inputs).
Proof.
  revert state n. induction inputs as [|x inputs IH]; intros state n Hc.
  - exists state, n. cbn. repeat split; try done; lia.
  - destruct (handleSubmit_total (Some x) EmptyString state n)
      as (mid & n1 & _ & Hrun & _).
    destruct (handleSubmit_complete_frame _ _ _ _ _ _ Hc Hrun)
      as (Hc' & Hi & Hl & Hlen).
    destruct (IH mid n1 Hc') as (after & n' & Hrest & Hs & Hi' & Hl' & Hlen').
    exists after, n'. split; [cbn; unfold bind; by rewrite Hrun|].
    split; [done|]. split; [congruence|]. split; [congruence|].
    rewrite submittedTexts_cons, length_app, Hlen', Hlen.
    change (submitted (Some x) EmptyString) with x.
    destruct (nonEmpty (trim x)); cbn; lia.
Qed.

(** X5: a run of submissions never removes a key from the record: every
    key the record had before, it has after. *)
Theorem record_keys_are_kept (inputs : list string) (state : AgentState) (n : nat) :
  exists after n',
    submitAll inputs state n = Some (after, n')
    /\ dom (lead state) ⊆ dom (lead after).
Proof.
  revert state n. induction inputs as [|x inputs IH]; intros state n.
  - by exists state, n.
  - destruct (handleSubmit_total (Some x) EmptyString state n)
      as (mid & n1 & _ & Hrun & _).
    destruct (IH mid n1) as (after & n' & Hrest & Hdom).
    apply handleSubmit_keys in Hrun as Hkeys.
    exists after, n'. cbn. unfold bind. rewrite Hrun.
    split; [done|]. set_solver.
Qed.

(** X6: the user's side of the log is the submissions: after a run the
    user messages are those from before followed by the trimmed inputs that
    are not blank, one message each, in order; a blank input leaves no
    user message. *)
Theorem user_messages_are_the_inputs
    (inputs : list string) (state : AgentState) (n : nat) :
  exists after n',
    submitAll inputs state n = Some (after, n')
    /\ userTexts (messages after)
       = userTexts (messages state) ++ submittedTexts inputs.
Proof.
  revert state n. induction inputs as [|x inputs IH]; intros state n.
  - exists state, n. cbn. split; [done|]. by rewrite app_nil_r.
  - destruct (handleSubmit_total (Some x) EmptyString state n)
      as (mid & n1 & _ & Hrun & _).
    destruct (IH mid n1) as (after & n' & Hrest & Htexts).
    apply handleSubmit_userTexts in Hrun as Hone.
    exists after, n'. split; [cbn; unfold bind; by rewrite Hrun|].
    by rewrite Htexts, Hone, submittedTexts_cons, <- app_assoc.
Qed.

Lemma submitAll_ids inputs : forall state n after n',
  submitAll inputs state n = Some (after, n') ->
  n <= n'
  /\ Message.id <$> messages after
     = (Message.id <$> messages state) ++ (uuid <$> seq n (n' - n)).
Proof.
  induction inputs as [|x inputs IH]; intros state n after n'.
  - cbn. intros [= <- <-]. split; [done|].
    rewrite Nat.sub_diag. cbn. by rewrite app_nil_r.
  - intros (mid & n1 & Hrun & Hrest)%submitAll_cons.
    apply handleSubmit_ids in Hrun as [Hle Hids].
    apply IH in Hrest as [Hle' Hids'].
    split; [lia|]. rewrite Hids', Hids, <- app_assoc, <- fmap_app. do 2 f_equal.
    replace (n' - n) with ((n1 - n) + (n' - n1)) by lia.
    rewrite seq_app. do 2 f_equal. lia.
Qed.

(** X7: when the identifier source never repeats and never yields the
    greeting's fixed identifier, the messages of a session opened and then
    fed any run of submissions all have different identifiers. *)
Theorem message_ids_are_distinct
    (inputs : list string) (start : AgentState) (n0 n1 : nat) :
  (forall a b, uuid a = uuid b -> a = b) ->
  (forall k, uuid k <> Message.id initialAgentMessage) ->
  openingState n0 = Some (start, n1) ->
  exists after n',
    submitAll inputs start n1 = Some (after, n')
    /\ NoDup (Message.id <$> messages after).
Proof.
  intros Hinj Hintro (step & _ & -> & ->)%openingState_inv.
  destruct (submitAll_total inputs
              {| stepIndex := 0; lead := ∅;
                 messages := [initialAgentMessage; questionMsg (uuid n0) step None];
                 status := collecting |} (S n0))
    as (after & n' & Hrun).
  exists after, n'. split; [done|].
  apply submitAll_ids in Hrun as [Hle ->]. cbn.
  change (uuid n0 :: (uuid <$> seq (S n0) (n' - S n0)))
    with (uuid <$> seq n0 (S (n' - S n0))).
  apply NoDup_cons. split.
  - intros (k & Hk & _)%list_elem_of_fmap. by apply (Hintro k).
  - apply NoDup_fmap_2; [|apply NoDup_seq]. intros a b. apply Hinj.
Qed.

(** X9: identifiers never steer the conversation: two sessions that look
    the same apart from message identifiers, fed the same inputs at
    whatever points of the identifier stream, end in states that look the
    same apart from message identifiers. *)
Theorem identifiers_do_not_matter
    (inputs : list string) (s1 s2 : AgentState) (n1 n2 : nat) :
  observe s1 = observe s2 ->
  exists a1 m1 a2 m2,
    submitAll inputs s1 n1 = Some (a1, m1)
    /\ submitAll inputs s2 n2 = Some (a2, m2)
    /\ observe a1 = observe a2.
Proof.
  revert s1 s2 n1 n2. induction inputs as [|x inputs IH]; intros s1 s2 n1 n2 Hobs.
  - by exists s1, n1, s2, n2.
  - destruct (handleSubmit_total (Some x) EmptyString s1 n1)
      as (t1 & k1 & _ & Hrun1 & _).
    destruct (handleSubmit_total (Some x) EmptyString s2 n2)
      as (t2 & k2 & _ & Hrun2 & _).
    pose proof (handleSubmit_observe _ _ _ _ _ _ _ _ _ _ Hobs Hrun1 Hrun2) as Hobs'.
    destruct (IH t1 t2 k1 k2 Hobs') as (a1 & m1 & a2 & m2 & H1 & H2 & Ha).
    exists a1, m1, a2, m2. cbn. unfold bind. by rewrite Hrun1, Hrun2.
Qed.

(** *** Where the reducer throws *)

(** X8: the reducer throws in two situations only: [INIT] or [RESET] over an
    empty step table, and [RETRY] with the cursor outside the step table;
    every other action returns a state. *)
Theorem reducer_throws_iff (state : AgentState) (action : AgentAction) (n : nat) :
  reducer state action n = None
  <-> ((action = INIT \/ action = RESET) /\ baseSteps = [])
      \/ (exists message,
            action = RETRY message /\ baseSteps !! stepIndex state = None).
Proof.
  assert (Hopen : openingState n = None <-> baseSteps = []).
  { unfold openingState. destruct baseSteps as [|step steps]; cbn; [done|].
    split; intros; done. }
  destruct action as [|m|ms|u f|r|f|]; cbn -[openingState]; unfold bind.
  - rewrite Hopen. split; [by left; eauto|].
    intros [[_ ?]|(? & [=] & _)]. done.
  - split; [done|]. intros [[[[=]|[=]] _]|(? & [=] & _)].
  - split; [done|]. intros [[[[=]|[=]] _]|(? & [=] & _)].
  - split.
    + destruct (present f); cbn;
        destruct (baseSteps !! (stepIndex state + 1)); done.
    + intros [[[[=]|[=]] _]|(? & [=] & _)].
  - cbn. destruct (baseSteps !! stepIndex state) eqn:E; cbn.
    + split; [done|]. intros [[[[=]|[=]] _]|(? & _ & [=])].
    + split; [|done]. intros _. right. eauto.
  - split.
    + destruct (present f); done.
    + intros [[[[=]|[=]] _]|(? & [=] & _)].
  - rewrite Hopen. split; [by left; eauto|].
    intros [[_ ?]|(? & [=] & _)]. done.
Qed.

(** *** More on the recap *)

(** X10: the recap reads nine fields of the record and nothing else: two
    records that read the same on company name, industry, goal, pain points,
    budget label, budget value, timeline, contact name and contact email get
    the same recap, whatever else they hold. *)
Theorem summary_reads_nine_fields (l1 l2 : LeadProfile) :
  (forall key, key ∈ summaryFields -> prop l1 key = prop l2 key) ->
  renderSummary l1 = renderSummary l2.
Proof.
  intros Hsame. unfold renderSummary, summaryLines.
  by rewrite !Hsame by (unfold summaryFields; set_solver).
Qed.

(** X11: the budget label wins over the numeric budget: when the label is
    truthy the recap is the same whatever the budget value is, present or
    not. *)
Theorem budget_label_wins (lead : LeadProfile) (v : JSValue) :
  truthy (prop lead "budgetRange") = true ->
  renderSummary (<[ "budgetValue" := v ]> lead) = renderSummary lead.
Proof.
  intros Hrange.
  assert (Hother : forall key, key <> "budgetValue" ->
            prop (<[ "budgetValue" := v ]> lead) key = prop lead key).
  { intros key Hne. unfold prop. by rewrite lookup_insert_ne. }
  unfold renderSummary, summaryLines.
  rewrite !(Hother "companyName"), !(Hother "industry"), !(Hother "primaryGoal"),
    !(Hother "painPoints"), !(Hother "budgetRange"), !(Hother "timeline"),
    !(Hother "contactName"), !(Hother "contactEmail") by done.
  by rewrite Hrange.
Qed.

Lemma filterBoolean_none rest : filterBoolean (None :: rest) = filterBoolean rest.
Proof. reflexivity. Qed.

Lemma filterBoolean_some line rest :
  nonEmpty line = true ->
  filterBoolean (Some line :: rest) = line :: filterBoolean rest.
Proof. intros H. unfold filterBoolean. cbn. by rewrite H. Qed.

Lemma concat_cons_nonempty line rest :
  nonEmpty line = true -> String.concat nl (line :: rest) <> EmptyString.
Proof. destruct line, rest; done. Qed.

Lemma header_only rest :
  "Quick recap:" +:+ nl +:+ rest = "Quick recap:" +:+ nl <-> rest = EmptyString.
Proof. cbn. split; [by intros [=]|by intros ->]. Qed.

Ltac line_shown :=
  rewrite filterBoolean_some by reflexivity;
  split; [intros H; by apply concat_cons_nonempty in H
         |by intros (?&?&?&?&?&?&?)].

(** X12: the recap is the bare header exactly when none of company name,
    goal, pain points, budget label, budget value, timeline and contact name
    is truthy; an industry or an email alone adds nothing. *)
Theorem summary_is_bare_header_iff (lead : LeadProfile) :
  renderSummary lead = "Quick recap:" +:+ nl
  <-> truthy (prop lead "companyName") = false
      /\ truthy (prop lead "primaryGoal") = false
      /\ truthy (prop lead "painPoints") = false
      /\ truthy (prop lead "budgetRange") = false
      /\ truthy (prop lead "budgetValue") = false
      /\ truthy (prop lead "timeline") = false
      /\ truthy (prop lead "contactName") = false.
Proof.
  unfold renderSummary. rewrite header_only. unfold summaryLines.
  destruct (truthy (prop lead "companyName")); [line_shown|].
  rewrite filterBoolean_none.
  destruct (truthy (prop lead "primaryGoal")); [line_shown|].
  rewrite filterBoolean_none.
  destruct (truthy (prop lead "painPoints")); [line_shown|].
  rewrite filterBoolean_none.
  destruct (truthy (prop lead "budgetRange")); [line_shown|].
  destruct (truthy (prop lead "budgetValue")); [line_shown|].
  rewrite filterBoolean_none.
  destruct (truthy (prop lead "timeline")); [line_shown|].
  rewrite filterBoolean_none.
  destruct (truthy (prop lead "contactName")); [line_shown|].
  done.
Qed.

End Engine.

(** ** The engine on the two-step table *)

Lemma all_steps_answered_completes_witness :
  openingState sampleUuid sampleSteps 0 = Some (sampleStart, 1)
  /\ allAccepted sampleUuid sampleSteps sampleNumber sampleNumber
       ["Acme"; "ann@acme.io"] sampleStart 1 = true
  /\ exists mid nk,
       submitAll sampleUuid sampleSteps sampleNumber sampleNumber
         (take 2 ["Acme"; "ann@acme.io"]) sampleStart 1 = Some (mid, nk)
       /\ stepIndex mid = 2
       /\ (status mid = complete <-> 2 = length sampleSteps).
Proof.
  assert (H1 : openingState sampleUuid sampleSteps 0 = Some (sampleStart, 1))
    by reflexivity.
  assert (H2 : allAccepted sampleUuid sampleSteps sampleNumber sampleNumber
                 ["Acme"; "ann@acme.io"] sampleStart 1 = true)
    by (vm_compute; reflexivity).
  split; [exact H1|]. split; [exact H2|].
  apply (proj1 (all_steps_answered_completes sampleUuid sampleSteps
                  sampleNumber sampleNumber ["Acme"; "ann@acme.io"]
                  sampleStart 0 1 H1 eq_refl H2) 2).
  cbn. lia.
Defined.

Lemma rejected_input_reprompts_witness :
  rejected sampleSteps atEmailStep "no address" = true
  /\ Forall (fun f => rejected sampleSteps atEmailStep f = true) ["later"; "n/a"]
  /\ exists after n',
       submitAll sampleUuid sampleSteps sampleNumber sampleNumber
         ["later"; "n/a"] atEmailStep 5 = Some (after, n')
       /\ stepIndex after = 1
       /\ lead after = lead atEmailStep.
Proof.
  assert (H1 : rejected sampleSteps atEmailStep
                 (submitted (Some "no address") EmptyString) = true)
    by (vm_compute; reflexivity).
  assert (H2 : Forall (fun f => rejected sampleSteps atEmailStep f = true)
                 ["later"; "n/a"])
    by (repeat constructor).
  split; [exact H1|]. split; [exact H2|].
  destruct (rejected_input_reprompts sampleUuid sampleSteps sampleNumber
              sampleNumber atEmailStep (Some "no address") EmptyString
              ["later"; "n/a"] 5 H1 H2)
    as [_ (after & n' & Hrun & Hi & Hl & _)].
  exists after, n'. split; [exact Hrun|]. split; [exact Hi|exact Hl].
Defined.

Lemma blankInput_whitespace : WhiteSpaceOnly blankInput.
Proof.
  unfold blankInput.
  do 2 (apply ws_one; [reflexivity|]).
  apply ws_two; [reflexivity|]. apply ws_empty.
Qed.

Lemma blank_input_is_dropped_witness :
  WhiteSpaceOnly (submitted (Some blankInput) EmptyString)
  /\ handleSubmit sampleUuid sampleSteps sampleNumber sampleNumber
       (Some blankInput) EmptyString sampleStart 1 = Some (sampleStart, 1).
Proof.
  split; [exact blankInput_whitespace|].
  apply (blank_input_is_dropped sampleUuid sampleSteps sampleNumber sampleNumber
           sampleStart (Some blankInput) EmptyString 1 blankInput_whitespace).
Defined.

(** C3 as stated fails: on the opening state of the sample table a blank
    input is white space only, and [handleSubmit] returns the state it got;
    no state with a longer log comes back, so no retry message was
    produced. *)
Lemma blank_input_gets_no_retry :
  openingState sampleUuid sampleSteps 0 = Some (sampleStart, 1)
  /\ WhiteSpaceOnly blankInput
  /\ handleSubmit sampleUuid sampleSteps sampleNumber sampleNumber
       (Some blankInput) EmptyString sampleStart 1 = Some (sampleStart, 1)
  /\ ~ (exists after n',
          handleSubmit sampleUuid sampleSteps sampleNumber sampleNumber
            (Some blankInput) EmptyString sampleStart 1 = Some (after, n')
          /\ length (messages sampleStart) < length (messages after)).
Proof.
  split; [reflexivity|]. split; [exact blankInput_whitespace|].
  split; [vm_compute; reflexivity|].
  intros (after & n' & Hrun & Hlen).
  vm_compute in Hrun. injection Hrun as <- _. cbn in Hlen. lia.
Qed.

Lemma accepted_input_advances_witness :
  status sampleStart = collecting
  /\ sampleSteps !! stepIndex sampleStart = Some companyStep
  /\ nonEmpty (trim (submitted (Some " Acme ") EmptyString)) = true
  /\ exists after n',
       handleSubmit sampleUuid sampleSteps sampleNumber sampleNumber
         (Some " Acme ") EmptyString sampleStart 1 = Some (after, n')
       /\ stepIndex after = 1
       /\ lead after !! "companyName" = Some (JString "Acme").
Proof.
  assert (H3 : nonEmpty (trim (submitted (Some " Acme ") EmptyString)) = true)
    by reflexivity.
  assert (H4 : LeadStep.parse companyStep
                 (trim (submitted (Some " Acme ") EmptyString)) (lead sampleStart)
               = ParseSuccess {[ "companyName" := JString "Acme" ]}
                   (Some "Thanks, noted."))
    by reflexivity.
  split; [reflexivity|]. split; [reflexivity|]. split; [exact H3|].
  destruct (accepted_input_advances sampleUuid sampleSteps sampleNumber
              sampleNumber sampleStart (Some " Acme ") EmptyString 1 companyStep
              {[ "companyName" := JString "Acme" ]} (Some "Thanks, noted.")
              eq_refl eq_refl H3 H4)
    as [(after & n' & i1 & i2 & rest & Hrun & Hi & _ & _ & Hset & _) _].
  exists after, n'. split; [exact Hrun|]. split; [exact Hi|].
  apply Hset. reflexivity.
Defined.

(** C4 as stated fails: the company step accepts the input and returns a
    follow-up; the message logged for it carries no tag, and the log holds
    no info message with the follow-up's text. *)
Lemma follow_up_is_untagged :
  accepted sampleSteps sampleStart " Acme " = true
  /\ handleSubmit sampleUuid sampleSteps sampleNumber sampleNumber
       (Some " Acme ") EmptyString sampleStart 1
     = Some ({| stepIndex := 1;
                lead := {[ "companyName" := JString "Acme" ]};
                messages :=
                  messages sampleStart
                  ++ [userMsg "m1" "Acme";
                      agentMsg "m2" "Thanks, noted." None;
                      questionMsg "m3" emailStep (Some 1)];
                status := collecting |}, 4)
  /\ Message.meta (agentMsg "m2" "Thanks, noted." None) = None
  /\ ~ (exists i,
          agentMsg i "Thanks, noted." (Some info)
          ∈ messages sampleStart
            ++ [userMsg "m1" "Acme";
                agentMsg "m2" "Thanks, noted." None;
                questionMsg "m3" emailStep (Some 1)]).
Proof.
  split; [vm_compute; reflexivity|]. split; [vm_compute; reflexivity|].
  split; [reflexivity|].
  intros [i Hin]. cbn in Hin.
  repeat (apply elem_of_cons in Hin as [Heq|Hin]; [discriminate Heq|]).
  by apply elem_of_nil in Hin.
Qed.

Lemma sampleStart_reachable :
  reachable sampleUuid sampleSteps sampleNumber sampleNumber sampleStart.
Proof. by apply (reach_open _ _ _ _ 0 sampleStart 1). Qed.

Lemma reset_is_fresh_opening_witness :
  exists mid after n',
    handleSubmit sampleUuid sampleSteps sampleNumber sampleNumber
      (Some "Acme") EmptyString sampleStart 1 = Some (mid, 4)
    /\ stepIndex mid = 1
    /\ reachable sampleUuid sampleSteps sampleNumber sampleNumber mid
    /\ resetConversation sampleUuid sampleSteps mid 4 = Some (after, n')
    /\ observe after = observe sampleStart.
Proof.
  eexists _.
  assert (Hrun : handleSubmit sampleUuid sampleSteps sampleNumber sampleNumber
                   (Some "Acme") EmptyString sampleStart 1
                 = Some ({| stepIndex := 1;
                            lead := {[ "companyName" := JString "Acme" ]};
                            messages :=
                              messages sampleStart
                              ++ [userMsg "m1" "Acme";
                                  agentMsg "m2" "Thanks, noted." None;
                                  questionMsg "m3" emailStep (Some 1)];
                            status := collecting |}, 4))
    by (vm_compute; reflexivity).
  pose proof (reach_submit _ _ _ _ _ _ _ _ _ _ sampleStart_reachable Hrun) as Hreach.
  destruct (reset_is_fresh_opening sampleUuid sampleSteps sampleNumber
              sampleNumber _ 4 Hreach)
    as (after & n' & step & i & Hreset & _ & _ & _ & _ & _ & Hobs).
  exists after, n'. split; [exact Hrun|]. split; [reflexivity|].
  split; [exact Hreach|]. split; [exact Hreset|].
  apply (Hobs 0 sampleStart 1). reflexivity.
Defined.

Lemma complete_state_acknowledges_witness :
  status sampleDone = complete
  /\ nonEmpty (trim (submitted (Some "one more thing") EmptyString)) = true
  /\ exists after n',
       handleSubmit sampleUuid sampleSteps sampleNumber sampleNumber
         (Some "one more thing") EmptyString sampleDone 9 = Some (after, n')
       /\ length (messages after) = 2
       /\ lead after = lead sampleDone
       /\ stepIndex after = 2
       /\ status after = complete.
Proof.
  assert (H2 : nonEmpty (trim (submitted (Some "one more thing") EmptyString)) = true)
    by reflexivity.
  split; [reflexivity|]. split; [exact H2|].
  destruct (complete_state_acknowledges sampleUuid sampleSteps sampleNumber
              sampleNumber sampleDone (Some "one more thing") EmptyString 9
              eq_refl H2)
    as (after & n' & i1 & i2 & Hrun & Hm & Hl & Hi & Hs).
  exists after, n'. split; [exact Hrun|]. split; [by rewrite Hm|].
  split; [exact Hl|]. split; [exact Hi|exact Hs].
Defined.

(** C7 as stated fails: a record with a company name and no industry gets
    a company line that renders the missing industry as a placeholder, a
    record with a contact name and no email renders the email as a
    placeholder, and a record with an industry and no company name gets no
    line for the industry. *)
Lemma summary_renders_placeholders :
  ({[ "companyName" := JString "Acme" ]} : LeadProfile) !! "industry" = None
  /\ renderSummary sampleNumber sampleNumber {[ "companyName" := JString "Acme" ]}
     = "Quick recap:" +:+ nl +:+ "• Acme in unknown vertical"
  /\ ({[ "contactName" := JString "Ann" ]} : LeadProfile) !! "contactEmail" = None
  /\ renderSummary sampleNumber sampleNumber {[ "contactName" := JString "Ann" ]}
     = "Quick recap:" +:+ nl +:+ "• Contact: Ann (email pending)"
  /\ renderSummary sampleNumber sampleNumber {[ "industry" := JString "Fintech" ]}
     = "Quick recap:" +:+ nl.
Proof. repeat split; vm_compute; reflexivity. Qed.

Lemma cursor_beyond_steps_is_completion_witness :
  sampleSteps !! stepIndex sampleDone = None
  /\ exists after n',
       handleSubmit sampleUuid sampleSteps sampleNumber sampleNumber
         (Some "hello") EmptyString sampleDone 9 = Some (after, n')
       /\ stepIndex after = 2
       /\ lead after = lead sampleDone
       /\ status after = complete.
Proof.
  split; [reflexivity|].
  destruct (cursor_beyond_steps_is_completion sampleUuid sampleSteps
              sampleNumber sampleNumber sampleDone (Some "hello") EmptyString 9
              eq_refl)
    as (after & n' & new & Hrun & Hi & Hl & Hs & _).
  exists after, n'. split; [exact Hrun|]. split; [exact Hi|].
  split; [exact Hl|exact Hs].
Defined.

Lemma log_is_append_only_witness :
  exists after n' new,
    reducer sampleUuid sampleSteps atEmailStep (RETRY "Try again.") 5
      = Some (after, n')
    /\ messages after = messages atEmailStep ++ new.
Proof.
  destruct (proj2 (log_is_append_only sampleUuid sampleSteps sampleNumber
                     sampleNumber atEmailStep None EmptyString 5)
              (RETRY "Try again.") _ _ ltac:(discriminate) ltac:(discriminate)
              eq_refl)
    as [new Hnew].
  eexists _, _, new. split; [reflexivity|exact Hnew].
Defined.

(** ** The export file name *)

Lemma dashWhitespace_unfold inRun s :
  dashWhitespace inRun s
  = match s with
    | EmptyString => EmptyString
    | String a r =>
        match wsHead s with
        | Some rest =>
            (if inRun then EmptyString else "-") +:+ dashWhitespace true rest
        | None => String a (dashWhitespace false r)
        end
    end.
Proof.
  destruct s as [|a [|b [|c r3]]]; cbn; try done.
  - by destruct (isWs1 a).
  - by destruct (isWs1 a), (isWs2 a b).
  - by destruct (isWs1 a), (isWs2 a b), (isWs3 a b c).
Qed.

Lemma wsHead_shorter s rest :
  wsHead s = Some rest -> String.length rest < String.length s.
Proof.
  destruct s as [|a [|b [|c r3]]]; cbn; try done.
  - destruct (isWs1 a); [|done]. intros [= <-]. cbn. lia.
  - destruct (isWs1 a); [intros [= <-]; cbn; lia|].
    destruct (isWs2 a b); [|done]. intros [= <-]. cbn. lia.
  - destruct (isWs1 a); [intros [= <-]; cbn; lia|].
    destruct (isWs2 a b); [intros [= <-]; cbn; lia|].
    destruct (isWs3 a b c); [|done]. intros [= <-]. cbn. lia.
Qed.

Lemma isWs2_dash a : isWs2 a "-" = false.
Proof. unfold isWs2. apply andb_false_r. Qed.

Lemma isWs3_dash_mid a c : isWs3 a "-" c = false.
Proof.
  unfold isWs3. cbn.
  by rewrite !andb_false_r.
Qed.

Lemma isWs3_dash_last a b : isWs3 a b "-" = false.
Proof.
  unfold isWs3. cbn.
  by rewrite !andb_false_r.
Qed.

Lemma wsHead_dash rest : wsHead (String "-" rest) = None.
Proof. by destruct rest as [|b [|c r]]. Qed.

(** The first byte the scan writes for a string: a dash for white space,
    the string's own first byte otherwise. *)
Lemma dashWhitespace_head s :
  match s with
  | EmptyString => dashWhitespace false s = EmptyString
  | String a r =>
      (exists rest, dashWhitespace false s = String "-" rest)
      \/ (wsHead s = None
          /\ dashWhitespace false s = String a (dashWhitespace false r))
  end.
Proof.
  destruct s as [|a r]; [done|].
  rewrite dashWhitespace_unfold.
  destruct (wsHead (String a r)) as [rest|]; [left|right]; eauto.
Qed.

Lemma wsHead_none_inv a r :
  wsHead (String a r) = None ->
  isWs1 a = false
  /\ match r with
     | EmptyString => True
     | String b r2 =>
         isWs2 a b = false
         /\ match r2 with
            | EmptyString => True
            | String c _ => isWs3 a b c = false
            end
     end.
Proof.
  destruct r as [|b [|c r3]]; cbn.
  - by destruct (isWs1 a).
  - by destruct (isWs1 a), (isWs2 a b).
  - by destruct (isWs1 a), (isWs2 a b), (isWs3 a b c).
Qed.

Lemma wsHead_none_intro a r :
  isWs1 a = false ->
  match r with
  | EmptyString => True
  | String b r2 =>
      isWs2 a b = false
      /\ match r2 with
         | EmptyString => True
         | String c _ => isWs3 a b c = false
         end
  end ->
  wsHead (String a r) = None.
Proof.
  intros H1. destruct r as [|b [|c r3]]; cbn; rewrite H1; try done.
  - by intros [-> _].
  - by intros [-> ->].
Qed.

Lemma wsHead_stable a r :
  wsHead (String a r) = None ->
  wsHead (String a (dashWhitespace false r)) = None.
Proof.
  intros (H1 & Hrest)%wsHead_none_inv.
  apply wsHead_none_intro; [done|].
  pose proof (dashWhitespace_head r) as Hr.
  destruct r as [|b r2]; [by rewrite Hr|].
  destruct Hrest as [H2 Hrest].
  destruct Hr as [[rest ->]|[_ ->]].
  - split; [apply isWs2_dash|]. destruct rest; [done|apply isWs3_dash_mid].
  - split; [done|].
    pose proof (dashWhitespace_head r2) as Hr2.
    destruct r2 as [|c r3]; [by rewrite Hr2|].
    destruct Hr2 as [[rest ->]|[_ ->]]; [apply isWs3_dash_last|done].
Qed.

Lemma hasWs_dashWhitespace n : forall inRun s,
  String.length s <= n -> hasWs (dashWhitespace inRun s) = false.
Proof.
  induction n as [|n IH]; intros inRun s Hlen.
  - destruct s; [done|cbn in Hlen; lia].
  - rewrite dashWhitespace_unfold. destruct s as [|a r]; [done|].
    destruct (wsHead (String a r)) as [rest|] eqn:Hhead.
    + apply wsHead_shorter in Hhead.
      assert (Hrest : hasWs (dashWhitespace true rest) = false)
        by (apply IH; lia).
      destruct inRun; [done|].
      change ("-" +:+ dashWhitespace true rest)
        with (String "-" (dashWhitespace true rest)).
      cbn [hasWs]. rewrite wsHead_dash, Hrest.
      by rewrite bool_decide_eq_false_2 by (by intros [? [=]]).
    + cbn [hasWs]. rewrite (wsHead_stable a r Hhead).
      rewrite bool_decide_eq_false_2 by (by intros [? [=]]).
      apply IH. cbn in Hlen. lia.
Qed.

Lemma dashWhitespace_clean s : hasWs s = false -> dashWhitespace false s = s.
Proof.
  induction s as [|a r IH]; [done|].
  rewrite dashWhitespace_unfold. cbn [hasWs].
  intros [Hhead Hrest]%orb_false_iff.
  destruct (wsHead (String a r)) as [rest|].
  - by rewrite bool_decide_eq_true_2 in Hhead by eauto.
  - by rewrite IH.
Qed.

Lemma append_nil_l s : EmptyString +:+ s = s.
Proof. reflexivity. Qed.

Lemma append_cons a r s : String a r +:+ s = String a (r +:+ s).
Proof. reflexivity. Qed.

(** Appending a suffix that starts with a dash adds no white space. *)
Lemma hasWs_app_dash s tail :
  hasWs (s +:+ String "-" tail) = hasWs s || hasWs (String "-" tail).
Proof.
  induction s as [|a r IH]; [done|].
  rewrite append_cons. cbn [hasWs]. rewrite IH, <- orb_assoc. f_equal.
  destruct r as [|b [|c r3]]; rewrite ?append_cons, ?append_nil_l; cbn.
  - destruct (isWs1 a); [done|]. rewrite isWs2_dash.
    destruct tail; [done|]. by rewrite isWs3_dash_mid.
  - destruct (isWs1 a); [done|]. destruct (isWs2 a b); [done|].
    by rewrite isWs3_dash_last.
  - by destruct (isWs1 a), (isWs2 a b), (isWs3 a b c).
Qed.

(** X13: [exportLatestLead] does nothing without leads; otherwise it reads
    the first lead of the card.  When that lead's company name is nullish or
    a string it downloads the lead under a name that ends in [-lead.json]
    and holds no white space at all, whatever the company is called; it
    throws exactly when the company name is any other value, such as a
    number, a boolean, an array or an object. *)
Theorem export_name_has_no_whitespace {Lead : Type}
    (nameOf : Lead -> CompanyName) (toLowerCase : string -> string)
    (pretty : Lead -> string) (leads : list Lead) :
  match exportLatestLead nameOf toLowerCase pretty leads with
  | NothingToExport => leads = []
  | Download name body =>
      hasWs name = false
      /\ exists stem latest rest,
           name = stem +:+ "-lead.json"
           /\ leads = latest :: rest
           /\ body = pretty latest
           /\ nameOf latest <> OtherName
  | ExportThrows =>
      exists latest rest, leads = latest :: rest /\ nameOf latest = OtherName
  end.
Proof.
  destruct leads as [|latest rest]; [done|].
  unfold exportLatestLead, downloadName.
  destruct (nameOf latest) as [|text|] eqn:E; [| |by exists latest, rest].
  - split; [|by eexists _, latest, rest; rewrite E].
    change "-lead.json" with (String "-" "lead.json").
    rewrite hasWs_app_dash, (hasWs_dashWhitespace _ false _ (le_n _)). done.
  - split; [|by eexists _, latest, rest; rewrite E].
    change "-lead.json" with (String "-" "lead.json").
    rewrite hasWs_app_dash, (hasWs_dashWhitespace _ false _ (le_n _)). done.
Qed.

Example export_of_parsed_leads :
  exportLatestLead jsonCompanyName id (fun _ => "{}")
    [ {[ "companyName" := JsonString "Acme  Robotics" ]} ]
  = Download "Acme-Robotics-lead.json" "{}"
  /\ exportLatestLead jsonCompanyName id (fun _ => "{}")
       [ {[ "companyName" := JsonNull ]} ]
     = Download "lead-lead.json" "{}"
  /\ exportLatestLead jsonCompanyName id (fun _ => "{}")
       [ {[ "companyName" := JsonBool true ]} ]
     = ExportThrows
  /\ exportLatestLead jsonCompanyName id (fun _ => "{}")
       [ {[ "companyName" := JsonArray [JsonString "Acme"] ]} ]
     = ExportThrows.
Proof. repeat split; vm_compute; reflexivity. Qed.

(** X14: the replacement of white space runs by dashes leaves no white
    space behind, and doing it twice is doing it once. *)
Theorem dashes_leave_no_whitespace (s : string) :
  hasWs (dashWhitespace false s) = false
  /\ dashWhitespace false (dashWhitespace false s) = dashWhitespace false s.
Proof.
  assert (H : hasWs (dashWhitespace false s) = false)
    by apply (hasWs_dashWhitespace _ false s (le_n _)).
  split; [exact H|]. by apply dashWhitespace_clean.
Qed.

(** X15: a string without white space is not changed by the replacement. *)
Theorem no_whitespace_no_dashes (s : string) :
  hasWs s = false -> dashWhitespace false s = s.
Proof. apply dashWhitespace_clean. Qed.

Example dashWhitespace_runs :
  dashWhitespace false ("Acme  Robotics" +:+ blankInput +:+ "Ltd")
  = "Acme-Robotics-Ltd".
Proof. reflexivity. Qed.

Lemma no_whitespace_no_dashes_witness :
  hasWs "acme-robotics" = false
  /\ dashWhitespace false "acme-robotics" = "acme-robotics".
Proof.
  assert (H : hasWs "acme-robotics" = false) by reflexivity.
  split; [exact H|]. exact (no_whitespace_no_dashes "acme-robotics" H).
Defined.

(** ** Storage of finished leads *)

Lemma take_cons_25 (payload : LeadProfile) existing :
  take 25 (payload :: existing) = payload :: take 24 existing.
Proof. reflexivity. Qed.

(** X16: [upsertLeadInStorage] is all or nothing and never throws.  When
    reading the stored leads or writing them back throws, storage and the
    events sent are as before and one warning is logged.  Otherwise the
    stored list becomes the new lead followed by the first 24 of the old
    ones, at most 25 in all, every other storage key is untouched, and one
    event carrying the new lead is sent. *)
Theorem upsert_is_all_or_nothing
    (H : Host) (lead : LeadProfile) (score : float) (b : Browser) :
  let payload := storedPayload H lead score in
  let b' := upsertLeadInStorage H lead score b in
  (localStorage b' = localStorage b
   /\ dispatched b' = dispatched b
   /\ warnings b' = S (warnings b)
   /\ (existingLeads H b = None
       \/ exists existing,
            existingLeads H b = Some existing
            /\ accepts H (stringify H (payload :: take 24 existing)) = false))
  \/ (exists existing,
        existingLeads H b = Some existing
        /\ localStorage b' !! "leadgen:leads"
           = Some (stringify H (payload :: take 24 existing))
        /\ (forall key, key <> "leadgen:leads" ->
              localStorage b' !! key = localStorage b !! key)
        /\ length (payload :: take 24 existing) <= 25
        /\ dispatched b' = dispatched b ++ [payload]
        /\ warnings b' = warnings b).
Proof.
  intros payload b'. subst b'. unfold upsertLeadInStorage, tryUpsert.
  fold payload. destruct (existingLeads H b) as [existing|]; [|left; eauto].
  rewrite take_cons_25.
  destruct (accepts H (stringify H (payload :: take 24 existing))) eqn:Hok.
  - right. exists existing. cbn [localStorage dispatched warnings].
    split; [done|]. split; [by rewrite lookup_insert_eq|].
    split; [by intros key Hne; rewrite lookup_insert_ne|].
    split; [|done]. cbn. rewrite length_take. lia.
  - left. cbn. eauto 8.
Qed.

(** X17: a stored lead is the one the card exports: when the write succeeds
    and the host reads back what it wrote, [load] shows the new lead first,
    followed by the first 24 older ones, and [exportLatestLead] exports
    that new lead. *)
Theorem stored_lead_is_exported
    (H : Host) (lead : LeadProfile) (score : float) (b : Browser)
    (existing shown : list LeadProfile)
    (toLowerCase : string -> string) (pretty : LeadProfile -> string) :
  let payload := storedPayload H lead score in
  let updated := payload :: take 24 existing in
  existingLeads H b = Some existing ->
  accepts H (stringify H updated) = true ->
  nonEmpty (stringify H updated) = true ->
  parseLeads H (stringify H updated) = Some updated ->
  load H (upsertLeadInStorage H lead score b) shown = updated
  /\ exportLatestLead companyNameOf toLowerCase pretty
       (load H (upsertLeadInStorage H lead score b) shown)
     = match downloadName toLowerCase (companyNameOf payload) with
       | Some name => Download name (pretty payload)
       | None => ExportThrows
       end.
Proof.
  intros payload updated Hexisting Hok Hne Hback.
  assert (Hload : load H (upsertLeadInStorage H lead score b) shown = updated).
  { unfold upsertLeadInStorage, tryUpsert. fold payload.
    rewrite Hexisting, take_cons_25. fold updated. rewrite Hok.
    unfold load. cbn [localStorage]. rewrite lookup_insert_eq.
    by rewrite Hne, Hback. }
  split; [exact Hload|]. by rewrite Hload.
Qed.

Lemma stored_lead_is_exported_witness :
  existingLeads sampleHost freshBrowser = Some []
  /\ load sampleHost
       (upsertLeadInStorage sampleHost acmeLead 80 freshBrowser) []
     = [acmeStored]
  /\ exportLatestLead companyNameOf id (fun _ => "{}")
       (load sampleHost
          (upsertLeadInStorage sampleHost acmeLead 80 freshBrowser) [])
     = Download "Acme-Robotics-lead.json" "{}".
Proof.
  split; [reflexivity|].
  destruct (stored_lead_is_exported sampleHost acmeLead 80 freshBrowser [] []
              id (fun _ => "{}") eq_refl eq_refl eq_refl eq_refl)
    as [Hload Hexport].
  split; [exact Hload|]. rewrite Hexport. vm_compute. reflexivity.
Defined.

(** ** The further properties on the two-step table *)

Lemma company_answer_reachable :
  exists mid,
    handleSubmit sampleUuid sampleSteps sampleNumber sampleNumber
      (Some "Acme") EmptyString sampleStart 1 = Some (mid, 4)
    /\ reachable sampleUuid sampleSteps sampleNumber sampleNumber mid.
Proof.
  eexists. split; [vm_compute; reflexivity|].
  apply (reach_submit _ _ _ _ sampleStart (Some "Acme") EmptyString 1 _ 4
           sampleStart_reachable).
  vm_compute. reflexivity.
Qed.

Lemma suggestions_follow_active_step_witness :
  exists mid,
    reachable sampleUuid sampleSteps sampleNumber sampleNumber mid
    /\ stepIndex mid = 1
    /\ activeSuggestions mid = ["Skip"].
Proof.
  destruct company_answer_reachable as (mid & Hrun & Hreach).
  exists mid. split; [exact Hreach|].
  pose proof (suggestions_follow_active_step sampleUuid sampleSteps
                sampleNumber sampleNumber mid Hreach) as Hs.
  vm_compute in Hrun. injection Hrun as <-.
  split; [reflexivity|]. rewrite Hs. reflexivity.
Defined.

Lemma status_follows_cursor_witness :
  exists mid,
    reachable sampleUuid sampleSteps sampleNumber sampleNumber mid
    /\ stepIndex mid <= length sampleSteps
    /\ (status mid = complete <-> stepIndex mid = length sampleSteps).
Proof.
  destruct company_answer_reachable as (mid & _ & Hreach).
  exists mid. split; [exact Hreach|].
  exact (status_follows_cursor sampleUuid sampleSteps sampleNumber
           sampleNumber mid Hreach).
Defined.

Lemma complete_is_terminal_witness :
  status sampleDone = complete
  /\ exists after n',
       submitAll sampleUuid sampleSteps sampleNumber sampleNumber
         ["thanks"; blankInput; "bye"] sampleDone 9 = Some (after, n')
       /\ status after = complete
       /\ stepIndex after = 2
       /\ length (messages after) = 4.
Proof.
  split; [reflexivity|].
  destruct (complete_is_terminal sampleUuid sampleSteps sampleNumber
              sampleNumber ["thanks"; blankInput; "bye"] sampleDone 9 eq_refl)
    as (after & n' & Hrun & Hs & Hi & _ & Hlen).
  exists after, n'. split; [exact Hrun|]. split; [exact Hs|].
  split; [exact Hi|]. rewrite Hlen. reflexivity.
Defined.

Lemma tally_inj a : forall b, tally a = tally b -> a = b.
Proof.
  induction a as [|a IH]; intros [|b]; cbn; try done.
  intros [= Hab]. f_equal. by apply IH.
Qed.

Lemma message_ids_are_distinct_witness :
  (forall a b, tallyUuid a = tallyUuid b -> a = b)
  /\ (forall k, tallyUuid k <> Message.id initialAgentMessage)
  /\ exists start after n',
       openingState tallyUuid sampleSteps 0 = Some (start, 1)
       /\ submitAll tallyUuid sampleSteps sampleNumber sampleNumber
            ["Acme"; "nope"; "ann@acme.io"; "bye"] start 1 = Some (after, n')
       /\ NoDup (Message.id <$> messages after).
Proof.
  assert (H1 : forall a b, tallyUuid a = tallyUuid b -> a = b).
  { intros a b [= Hab]. by apply tally_inj. }
  assert (H2 : forall k, tallyUuid k <> Message.id initialAgentMessage)
    by (intros k; discriminate).
  split; [exact H1|]. split; [exact H2|].
  eexists.
  destruct (message_ids_are_distinct tallyUuid sampleSteps sampleNumber
              sampleNumber ["Acme"; "nope"; "ann@acme.io"; "bye"] _ 0 1
              H1 H2 eq_refl)
    as (after & n' & Hrun & Hnodup).
  exists after, n'. split; [reflexivity|]. split; [exact Hrun|exact Hnodup].
Defined.

Lemma identifiers_do_not_matter_witness :
  observe sampleStart = observe sampleStart
  /\ exists a1 m1 a2 m2,
       submitAll sampleUuid sampleSteps sampleNumber sampleNumber
         ["Acme"; "nope"] sampleStart 1 = Some (a1, m1)
       /\ submitAll sampleUuid sampleSteps sampleNumber sampleNumber
            ["Acme"; "nope"] sampleStart 5 = Some (a2, m2)
       /\ observe a1 = observe a2.
Proof.
  split; [reflexivity|].
  exact (identifiers_do_not_matter sampleUuid sampleSteps sampleNumber
           sampleNumber ["Acme"; "nope"] sampleStart sampleStart 1 5 eq_refl).
Defined.

Lemma acme_same_summary_fields :
  forall key, key ∈ summaryFields -> prop acmeLead key = prop acmeStored key.
Proof.
  intros key Hin. unfold summaryFields in Hin.
  repeat (apply elem_of_cons in Hin as [->|Hin]; [vm_compute; reflexivity|]).
  by apply elem_of_nil in Hin.
Qed.

Lemma summary_reads_nine_fields_witness :
  acmeLead <> acmeStored
  /\ renderSummary sampleNumber sampleNumber acmeLead
     = renderSummary sampleNumber sampleNumber acmeStored.
Proof.
  split.
  - intros Heq. apply (f_equal (fun m => m !! "score")) in Heq.
    vm_compute in Heq. discriminate Heq.
  - exact (summary_reads_nine_fields sampleNumber sampleNumber acmeLead
             acmeStored acme_same_summary_fields).
Defined.

Lemma budget_label_wins_witness :
  truthy (prop {[ "budgetRange" := JString "$10k-$25k" ]} "budgetRange") = true
  /\ renderSummary sampleNumber sampleNumber
       (<[ "budgetValue" := JNumber 5 ]> {[ "budgetRange" := JString "$10k-$25k" ]})
     = renderSummary sampleNumber sampleNumber
         {[ "budgetRange" := JString "$10k-$25k" ]}.
Proof.
  assert (H : truthy (prop {[ "budgetRange" := JString "$10k-$25k" ]}
                        "budgetRange") = true)
    by (vm_compute; reflexivity).
  split; [exact H|].
  exact (budget_label_wins sampleNumber sampleNumber
           {[ "budgetRange" := JString "$10k-$25k" ]} (JNumber 5) H).
Defined.
